(** * us_map_led_cylinders: a shallow embedding of the marker-composition script

    The script drives a host 3D runtime (bpy).  The host's data blocks are
    modelled as an explicit [world]; every function of the script is a
    computation in a state-and-exception monad over that world, one monadic
    step per statement of the source.  When an exception is raised the world
    reached so far is kept, so that what a failed call leaves behind can be
    inspected.  The host's operators are given the behaviour the script relies
    on: what they select, which object they leave active, where they link a
    new object.  Python's floats are IEEE 754 binary64 numbers, and so are the
    model's. *)

From Stdlib Require Import ZArith Ascii String PrimFloat FloatOps.
From Stdlib Require Uint63.
From stdpp Require Import base strings gmap list stringmap pretty.

Local Open Scope float_scope.

(* A decimal literal stands for the nearest double, as in Python. *)
#[local] Set Warnings "-inexact-float".
Local Open Scope string_scope.
Local Open Scope list_scope.

(** ** Values *)

Definition vec3 : Type := float * float * float.
Definition rgba : Type := float * float * float * float.

(** [float(n)] for a Python integer of absolute value below [2 ^ 63]. *)
Definition float_of_Z (n : Z) : float :=
  match n with
  | Z0 => 0
  | Zpos _ => of_uint63 (Uint63.of_Z n)
  | Zneg _ => - of_uint63 (Uint63.of_Z (- n))
  end.

(** Python exceptions the script or the host can raise. *)
Inductive exn :=
  | TypeError | KeyError | IndexError | AttributeError
  | ZeroDivisionError | RuntimeError | ReferenceError.

(** ** Material node graphs *)

Inductive node_kind :=
  | ShaderNodeOutputMaterial
  | ShaderNodeEmission
  | ShaderNodeBsdfDiffuse
  | ShaderNodeBsdfPrincipled
  | ShaderNodeTexImage.

Global Instance node_kind_eq_dec : EqDecision node_kind.
Proof. solve_decision. Defined.

(** The [default_value] of an input socket: a colour, a number, or a socket
    that only takes a link (shader, vector). *)
Inductive socket :=
  | SockColor (c : rgba)
  | SockFloat (v : float)
  | SockLink.

#[projections(primitive)] Record node := Node {
  node_name : string;
  node_type : node_kind;
  node_inputs : list socket
}.

#[projections(primitive)] Record link := Link {
  from_node : string; from_socket : nat;
  to_node : string; to_socket : nat
}.

#[projections(primitive)] Record node_tree := NodeTree {
  nodes : list node;
  links : list link
}.

#[projections(primitive)] Record material := Material {
  use_nodes : bool;
  mat_tree : option node_tree
}.

(** ** Objects, collections *)

Inductive obtype := MESH | FONT | CAMERA | LIGHT.

Global Instance obtype_eq_dec : EqDecision obtype.
Proof. solve_decision. Defined.

(** What an object's data block holds.  [Extruded g v] is [g] with its whole
    geometry extruded and the new region moved by [v]. *)
Inductive geometry :=
  | Cylinder (radius depth : float)
  | ImagePlane (image : string)
  | TextCurve (curve : string)          (* a font curve of bpy.data.curves *)
  | Glyphs (body : string)             (* the polygons of a converted text *)
  | Extruded (g : geometry) (v : vec3)
  | NoGeometry.

(** [color], [dimensions] and [location] hold the numbers Python last assigned
    (the host goes on to store them in single precision).  [hidden] stands
    for whatever keeps the view layer from offering the object for selection:
    the object or its collection is hidden or excluded, or selecting it is
    disabled. *)
#[projections(primitive)] Record object := Object {
  name : string;
  type : obtype;
  data : geometry;
  data_materials : list string;      (* obj.data.materials, by material key *)
  select : bool;                     (* obj.select_get() *)
  color : rgba;
  dimensions : option vec3;          (* None: the host's bounding box *)
  location : vec3;
  hidden : bool                      (* hidden, or not selectable, in the view layer *)
}.

#[projections(primitive)] Record collection := Collection {
  coll_objects : list nat
}.

Inductive edit_mode :=
  | OBJECT
  | EDIT (editing : list nat) (all_selected : bool).

Inductive component :=
  | SceneReset | BaseSurfaceLoader | ShaderGraphFactory
  | LabelGeometryBuilder | MarkerComposer.

Global Instance component_eq_dec : EqDecision component.
Proof. solve_decision. Defined.

(** Ghost events: entry into a component, and the host calls of the loader
    whose order matters. *)
Inductive event :=
  | Call (c : component)
  | AddonCheck (addon : string)
  | AddonEnable (addon : string)
  | PathExists (path : string).

Global Instance event_eq_dec : EqDecision event.
Proof. solve_decision. Defined.

(** ** The world

    A Python reference to an object is its index in [objects]; a removed
    object leaves [None] behind.  Materials, collections, curves and images
    are referred to by their key. *)
#[projections(primitive)] Record world := World {
  objects : list (option object);          (* bpy.data.objects *)
  active_object : option nat;              (* bpy.context.active_object *)
  mode : edit_mode;
  cursor_location : vec3;                  (* the 3D cursor, where operators add objects *)
  scene_objects : list nat;                (* scene.collection.objects *)
  scene_children : list string;            (* scene.collection.children *)
  active_collection : option string;       (* None: the scene's root collection *)
  collections : gmap string collection;    (* bpy.data.collections *)
  materials : gmap string material;        (* bpy.data.materials *)
  curves : gmap string string;             (* bpy.data.curves: name to body *)
  images : gmap string (Z * Z);            (* bpy.data.images: name to pixel size *)
  addons : gset string;                    (* enabled add-ons *)
  files : gmap string (option (Z * Z));    (* paths that exist; Some: an image of that size *)
  stdout : list string;
  trace : list event
}.

Definition set_objects v (w : world) : world :=
  World v (active_object w) (mode w) (cursor_location w) (scene_objects w)
    (scene_children w) (active_collection w) (collections w) (materials w)
    (curves w) (images w) (addons w) (files w) (stdout w) (trace w).
Definition set_active_object v (w : world) : world :=
  World (objects w) v (mode w) (cursor_location w) (scene_objects w)
    (scene_children w) (active_collection w) (collections w) (materials w)
    (curves w) (images w) (addons w) (files w) (stdout w) (trace w).
Definition set_mode v (w : world) : world :=
  World (objects w) (active_object w) v (cursor_location w) (scene_objects w)
    (scene_children w) (active_collection w) (collections w) (materials w)
    (curves w) (images w) (addons w) (files w) (stdout w) (trace w).
Definition set_scene_objects v (w : world) : world :=
  World (objects w) (active_object w) (mode w) (cursor_location w) v
    (scene_children w) (active_collection w) (collections w) (materials w)
    (curves w) (images w) (addons w) (files w) (stdout w) (trace w).
Definition set_scene_children v (w : world) : world :=
  World (objects w) (active_object w) (mode w) (cursor_location w)
    (scene_objects w) v (active_collection w) (collections w) (materials w)
    (curves w) (images w) (addons w) (files w) (stdout w) (trace w).
Definition set_active_collection v (w : world) : world :=
  World (objects w) (active_object w) (mode w) (cursor_location w)
    (scene_objects w) (scene_children w) v (collections w) (materials w)
    (curves w) (images w) (addons w) (files w) (stdout w) (trace w).
Definition set_collections v (w : world) : world :=
  World (objects w) (active_object w) (mode w) (cursor_location w)
    (scene_objects w) (scene_children w) (active_collection w) v (materials w)
    (curves w) (images w) (addons w) (files w) (stdout w) (trace w).
Definition set_materials v (w : world) : world :=
  World (objects w) (active_object w) (mode w) (cursor_location w)
    (scene_objects w) (scene_children w) (active_collection w) (collections w)
    v (curves w) (images w) (addons w) (files w) (stdout w) (trace w).
Definition set_curves v (w : world) : world :=
  World (objects w) (active_object w) (mode w) (cursor_location w)
    (scene_objects w) (scene_children w) (active_collection w) (collections w)
    (materials w) v (images w) (addons w) (files w) (stdout w) (trace w).
Definition set_images v (w : world) : world :=
  World (objects w) (active_object w) (mode w) (cursor_location w)
    (scene_objects w) (scene_children w) (active_collection w) (collections w)
    (materials w) (curves w) v (addons w) (files w) (stdout w) (trace w).
Definition set_addons v (w : world) : world :=
  World (objects w) (active_object w) (mode w) (cursor_location w)
    (scene_objects w) (scene_children w) (active_collection w) (collections w)
    (materials w) (curves w) (images w) v (files w) (stdout w) (trace w).
Definition set_stdout v (w : world) : world :=
  World (objects w) (active_object w) (mode w) (cursor_location w)
    (scene_objects w) (scene_children w) (active_collection w) (collections w)
    (materials w) (curves w) (images w) (addons w) (files w) v (trace w).
Definition set_trace v (w : world) : world :=
  World (objects w) (active_object w) (mode w) (cursor_location w)
    (scene_objects w) (scene_children w) (active_collection w) (collections w)
    (materials w) (curves w) (images w) (addons w) (files w) (stdout w) v.

(** ** The monad: state, and exceptions that keep the state *)

Inductive outcome (A : Type) :=
  | Ok (a : A)
  | Raise (e : exn).
Arguments Ok {A} a.
Arguments Raise {A} e.

Definition M (A : Type) : Type := world -> outcome A * world.

Definition ret {A} (a : A) : M A := fun w => (Ok a, w).
Definition bind {A B} (c : M A) (k : A -> M B) : M B :=
  fun w => match c w with
           | (Ok a, w') => k a w'
           | (Raise e, w') => (Raise e, w')
           end.
Definition raise {A} (e : exn) : M A := fun w => (Raise e, w).
Definition gets {A} (f : world -> A) : M A := fun w => (Ok (f w), w).
Definition modify (f : world -> world) : M unit := fun w => (Ok tt, f w).
Definition emit (e : event) : M unit :=
  modify (fun w => set_trace (trace w ++ [e]) w).
(** [x[k]] and attribute access on [None]: an absent value raises. *)
Definition unwrap {A} (e : exn) (o : option A) : M A :=
  match o with Some a => ret a | None => raise e end.

Declare Scope py_scope.
Delimit Scope py_scope with py.
Notation "x <- c ;; k" := (bind c (fun x => k))
  (at level 100, c at next level, right associativity) : py_scope.
Notation "c ;; k" := (bind c (fun _ => k))
  (at level 100, right associativity) : py_scope.
Local Open Scope py_scope.

(** A [for] loop over a list. *)
Fixpoint for_each {A} (l : list A) (body : A -> M unit) : M unit :=
  match l with
  | [] => ret tt
  | a :: l' => body a ;; for_each l' body
  end.

(** The host keeps a requested name when it is free and otherwise appends a
    number that makes it unused. *)
Definition unique_name (used : list string) (base : string) : string :=
  fresh_string_of_set base (list_to_set used).

(** ** Host runtime: materials and their node graphs *)

(** A value assigned from Python to a socket's [default_value]. *)
Inductive pyval :=
  | PyColor (c : rgba)
  | PyFloat (v : float)
  | PyNone.

Definition default_name (k : node_kind) : string :=
  match k with
  | ShaderNodeOutputMaterial => "Material Output"
  | ShaderNodeEmission => "Emission"
  | ShaderNodeBsdfDiffuse => "Diffuse BSDF"
  | ShaderNodeBsdfPrincipled => "Principled BSDF"
  | ShaderNodeTexImage => "Image Texture"
  end.

(** The input sockets a fresh node comes with (for the principled shader only
    the leading ones are listed; the script clears that node at once). *)
Definition default_inputs (k : node_kind) : list socket :=
  match k with
  | ShaderNodeOutputMaterial => [SockLink; SockLink; SockLink]
  | ShaderNodeEmission => [SockColor (1, 1, 1, 1); SockFloat 1]
  | ShaderNodeBsdfDiffuse => [SockColor (0.8, 0.8, 0.8, 1); SockFloat 0; SockLink]
  | ShaderNodeBsdfPrincipled => [SockColor (0.8, 0.8, 0.8, 1); SockFloat 0; SockFloat 0.5]
  | ShaderNodeTexImage => [SockLink]
  end.

(** The graph the host builds the first time node shading is switched on. *)
Definition default_tree : node_tree :=
  NodeTree
    [Node "Principled BSDF" ShaderNodeBsdfPrincipled (default_inputs ShaderNodeBsdfPrincipled);
     Node "Material Output" ShaderNodeOutputMaterial (default_inputs ShaderNodeOutputMaterial)]
    [Link "Principled BSDF" 0 "Material Output" 0].

(** [bpy.data.materials.new(name=...)]: a material without a node graph. *)
Definition materials_new (nm : string) : M string :=
  used <- gets (fun w => elements (dom (materials w))) ;;
  let key := unique_name used nm in
  modify (fun w => set_materials (<[key := Material false None]> (materials w)) w) ;;
  ret key.

Definition get_material (key : string) : M material :=
  m <- gets (fun w => materials w !! key) ;;
  unwrap KeyError m.

(** [mat.node_tree.nodes], [mat.node_tree.links]: on a material without a
    graph [node_tree] is [None], and the attribute access raises. *)
Definition get_tree (key : string) : M node_tree :=
  m <- get_material key ;;
  unwrap AttributeError (mat_tree m).

Definition put_tree (key : string) (t : node_tree) : M unit :=
  m <- get_material key ;;
  modify (fun w => set_materials (<[key := Material (use_nodes m) (Some t)]> (materials w)) w).

(** [mat.use_nodes = True]. *)
Definition set_use_nodes (key : string) : M unit :=
  m <- get_material key ;;
  let t := match mat_tree m with Some t => t | None => default_tree end in
  modify (fun w => set_materials (<[key := Material true (Some t)]> (materials w)) w).

Definition links_clear (key : string) : M unit :=
  t <- get_tree key ;; put_tree key (NodeTree (nodes t) []).

(** Removing the nodes removes the links that end in them. *)
Definition nodes_clear (key : string) : M unit :=
  t <- get_tree key ;; put_tree key (NodeTree [] []).

(** [nodes.new(type=...)]; the result refers to the node by its name in the graph. *)
Definition nodes_new (key : string) (k : node_kind) : M string :=
  t <- get_tree key ;;
  let nm := unique_name (node_name <$> nodes t) (default_name k) in
  put_tree key (NodeTree (nodes t ++ [Node nm k (default_inputs k)]) (links t)) ;;
  ret nm.

(** Assigning a socket's [default_value]: the value has to fit the socket. *)
Definition assign_socket (s : socket) (v : pyval) : outcome socket :=
  match s, v with
  | SockColor _, PyColor c => Ok (SockColor c)
  | SockFloat _, PyFloat q => Ok (SockFloat q)
  | SockLink, _ => Raise AttributeError
  | _, _ => Raise TypeError
  end.

Definition node_index (nm : string) (t : node_tree) : option (nat * node) :=
  list_find (fun n => node_name n = nm) (nodes t).

(** [nodes[nm].inputs[i].default_value = v]. *)
Definition set_default_value (key nm : string) (i : nat) (v : pyval) : M unit :=
  t <- get_tree key ;;
  jn <- unwrap KeyError (node_index nm t) ;;
  let '(j, n) := jn in
  s <- unwrap IndexError (node_inputs n !! i) ;;
  match assign_socket s v with
  | Ok s' =>
      put_tree key
        (NodeTree (<[j := Node (node_name n) (node_type n) (<[i := s']> (node_inputs n))]> (nodes t))
           (links t))
  | Raise e => raise e
  end.

(** [links.new(a.outputs[i], b.inputs[j])]. *)
Definition links_new (key a : string) (i : nat) (b : string) (j : nat) : M unit :=
  t <- get_tree key ;;
  put_tree key (NodeTree (nodes t) (links t ++ [Link a i b j])).

(** ** Shader-Graph Factory *)

Definition new_material (id : string) : M string :=
  found <- gets (fun w => materials w !! id) ;;
  mat <- match found with
         | None => materials_new id
         | Some _ => ret id
         end ;;
  set_use_nodes mat ;;
  m <- get_material mat ;;
  match mat_tree m with
  | Some _ => links_clear mat ;; nodes_clear mat
  | None => ret tt
  end ;;
  ret mat.

(** [intensity] defaults to [None]. *)
Definition new_shader (id node_type : string) (r g b : float) (intensity : option float)
  : M string :=
  emit (Call ShaderGraphFactory) ;;
  mat <- new_material id ;;
  output <- nodes_new mat ShaderNodeOutputMaterial ;;
  shader <- (if decide (node_type = "emissive") then
               s <- nodes_new mat ShaderNodeEmission ;;
               set_default_value mat "Emission" 0 (PyColor (r, g, b, 1)) ;;
               set_default_value mat "Emission" 1
                 (match intensity with Some q => PyFloat q | None => PyNone end) ;;
               ret (Some s)
             else ret None) ;;
  shader <- (if decide (node_type = "diffuse") then
               s <- nodes_new mat ShaderNodeBsdfDiffuse ;;
               set_default_value mat "Diffuse BSDF" 0 (PyColor (r, g, b, 1)) ;;
               ret (Some s)
             else ret shader) ;;
  match shader with
  | None => raise TypeError
  | Some s =>
      links_new mat s 0 output 0 ;;
      ret mat
  end.

Definition empty_world : world :=
  World [] None OBJECT (0, 0, 0) [] [] None ∅ ∅ ∅ ∅ ∅ ∅ [] [].

(** ** Shader-Graph Factory: what one call leaves behind *)

Definition output_node : node :=
  Node "Material Output" ShaderNodeOutputMaterial [SockLink; SockLink; SockLink].

Definition emission_tree (r g b q : float) : node_tree :=
  NodeTree
    [output_node;
     Node "Emission" ShaderNodeEmission [SockColor (r, g, b, 1); SockFloat q]]
    [Link "Emission" 0 "Material Output" 0].

Definition diffuse_tree (r g b : float) : node_tree :=
  NodeTree
    [output_node;
     Node "Diffuse BSDF" ShaderNodeBsdfDiffuse [SockColor (r, g, b, 1); SockFloat 0; SockLink]]
    [Link "Diffuse BSDF" 0 "Material Output" 0].

(** The world after a factory call that left graph [t] under [id]. *)
Definition with_graph (id : string) (t : node_tree) (w : world) : world :=
  set_materials (<[id := Material true (Some t)]> (materials w))
    (set_trace (trace w ++ [Call ShaderGraphFactory]) w).


(** ** Host runtime: objects, selection, modes *)

Inductive action := SELECT | DESELECT.

Definition poll (b : bool) : M unit :=
  if b then ret tt else raise RuntimeError.

Definition in_object_mode (w : world) : bool :=
  match mode w with OBJECT => true | EDIT _ _ => false end.

Definition with_name v (o : object) : object :=
  Object v (type o) (data o) (data_materials o) (select o) (color o)
    (dimensions o) (location o) (hidden o).
Definition with_mesh t d (o : object) : object :=
  Object (name o) t d (data_materials o) (select o) (color o)
    (dimensions o) (location o) (hidden o).
Definition with_data_materials v (o : object) : object :=
  Object (name o) (type o) (data o) v (select o) (color o)
    (dimensions o) (location o) (hidden o).
Definition with_select v (o : object) : object :=
  Object (name o) (type o) (data o) (data_materials o) v (color o)
    (dimensions o) (location o) (hidden o).
Definition with_color v (o : object) : object :=
  Object (name o) (type o) (data o) (data_materials o) (select o) v
    (dimensions o) (location o) (hidden o).
Definition with_dimensions v (o : object) : object :=
  Object (name o) (type o) (data o) (data_materials o) (select o) (color o)
    (Some v) (location o) (hidden o).
Definition with_location v (o : object) : object :=
  Object (name o) (type o) (data o) (data_materials o) (select o) (color o)
    (dimensions o) v (hidden o).

Definition map_objects (f : object -> object) (w : world) : world :=
  set_objects ((fun o : option object => f <$> o) <$> objects w) w.

(** Whether the view layer shows the object of reference [h]: it is linked to
    the scene's root collection or to one of that collection's children. *)
Definition in_view_layer (w : world) (h : nat) : bool :=
  bool_decide (h ∈ scene_objects w) ||
  existsb (fun c => match collections w !! c with
                    | Some coll => bool_decide (h ∈ coll_objects coll)
                    | None => false
                    end) (scene_children w).

(** The objects the selection operators work on. *)
Definition selectable (w : world) (h : nat) (o : object) : bool :=
  in_view_layer w h && negb (hidden o).

Definition select_visible (w : world) : world :=
  set_objects
    (imap (fun h (o : option object) =>
             (fun ob : object => if selectable w h ob then with_select true ob else ob) <$> o)
       (objects w)) w.

(** The names in use in [bpy.data.objects]. *)
Definition object_names (l : list (option object)) : list string :=
  omap (fun o : option object => name <$> o) l.

(** Reading through a reference; the object may have been removed. *)
Definition get_object (h : nat) : M object :=
  o <- gets (fun w => objects w !! h) ;;
  unwrap ReferenceError (mjoin o).

Definition update_object (h : nat) (f : object -> object) : M unit :=
  o <- get_object h ;;
  modify (fun w => set_objects (<[h := Some (f o)]> (objects w)) w).

(** Appends a data block to [bpy.data.objects] and returns the reference. *)
Definition add_object (o : object) : M nat :=
  used <- gets (fun w => object_names (objects w)) ;;
  h <- gets (fun w => length (objects w)) ;;
  modify (fun w => set_objects (objects w ++ [Some (with_name (unique_name used (name o)) o)]) w) ;;
  ret h.

(** [bpy.data.objects.new(name=..., object_data=...)]. *)
Definition objects_new (nm : string) (t : obtype) (d : geometry) : M nat :=
  add_object (Object nm t d [] false (1, 1, 1, 1) None (0, 0, 0) false).

Definition find_object (nm : string) (l : list (option object)) : option (nat * option object) :=
  list_find (fun o : option object => name <$> o = Some nm) l.

(** [bpy.data.objects[nm]]. *)
Definition objects_getitem (nm : string) : M nat :=
  r <- gets (fun w => find_object nm (objects w)) ;;
  unwrap KeyError (fst <$> r).

(** [obj.name = nm]: the name is made unique among the other objects. *)
Definition set_name (h : nat) (nm : string) : M unit :=
  used <- gets (fun w => object_names (<[h := None]> (objects w))) ;;
  update_object h (with_name (unique_name used nm)).

(** [obj.data.materials.append(mat)]. *)
Definition data_materials_append (h : nat) (mat : string) : M unit :=
  update_object h (fun o => with_data_materials (data_materials o ++ [mat]) o).

(** [obj.select_set(b)]. *)
Definition select_set (h : nat) (b : bool) : M unit :=
  update_object h (with_select b).

(** [bpy.ops.object.select_all(action=...)]: an object-mode operator.  It
    selects the objects the view layer shows and lets one select; the others
    are never selected, so that deselecting may clear every flag. *)
Definition select_all (a : action) : M unit :=
  ok <- gets in_object_mode ;;
  poll ok ;;
  modify (match a with
          | SELECT => select_visible
          | DESELECT => map_objects (with_select false)
          end).

Fixpoint selected_from (i : nat) (l : list (option object)) : list nat :=
  match l with
  | [] => []
  | Some o :: l' => if select o then i :: selected_from (S i) l' else selected_from (S i) l'
  | None :: l' => selected_from (S i) l'
  end.

(** [bpy.context.selected_objects]. *)
Definition selected_objects (w : world) : list nat := selected_from 0 (objects w).

(** [coll.objects.link(obj)]; linking an object twice is refused. *)
Definition scene_objects_link (h : nat) : M unit :=
  l <- gets scene_objects ;;
  if decide (h ∈ l) then raise RuntimeError
  else modify (set_scene_objects (l ++ [h])).

Definition collection_objects_link (c : string) (h : nat) : M unit :=
  found <- gets (fun w => collections w !! c) ;;
  coll <- unwrap ReferenceError found ;;
  if decide (h ∈ coll_objects coll) then raise RuntimeError
  else modify (fun w =>
         set_collections (<[c := Collection (coll_objects coll ++ [h])]> (collections w)) w).

(** Operators put a new object into the view layer's active collection (the
    scene's root collection when no other one is active). *)
Definition link_active (h : nat) (w : world) : world :=
  let target := active_collection w ≫= (fun c => pair c <$> collections w !! c) in
  set_collections
    (match target with
     | Some (c, coll) => <[c := Collection (coll_objects coll ++ [h])]> (collections w)
     | None => collections w
     end)
    (set_scene_objects
       (match target with
        | Some _ => scene_objects w
        | None => scene_objects w ++ [h]
        end) w).

Definition link_to_active_collection (h : nat) : M unit :=
  modify (link_active h).

(** What every add-object operator does: nothing else stays selected, the
    new object is selected, active, and in the active collection. *)
Definition operator_add (o : object) : M nat :=
  modify (map_objects (with_select false)) ;;
  h <- add_object (with_select true o) ;;
  link_to_active_collection h ;;
  modify (set_active_object (Some h)) ;;
  ret h.

(** [bpy.ops.mesh.primitive_cylinder_add(radius, depth, align='WORLD', location)].
    Outside object mode the operator adds to the mesh being edited instead of
    creating an object; that use is not modelled and is refused here. *)
Definition primitive_cylinder_add (radius depth : float) (loc : vec3) : M unit :=
  ok <- gets in_object_mode ;;
  poll ok ;;
  operator_add
    (Object "Cylinder" MESH (Cylinder radius depth) [] true (1, 1, 1, 1)
       (Some (2 * radius, 2 * radius, depth)) loc false) ;;
  ret tt.

(** [bpy.data.curves.new(type="FONT", name=...)], with an empty body. *)
Definition curves_new (nm : string) : M string :=
  used <- gets (fun w => elements (dom (curves w))) ;;
  let key := unique_name used nm in
  modify (fun w => set_curves (<[key := EmptyString]> (curves w)) w) ;;
  ret key.

(** [curve.body = text]. *)
Definition set_body (key text : string) : M unit :=
  modify (fun w => set_curves (<[key := text]> (curves w)) w).

Definition convert_one (cs : gmap string string) (o : object) : object :=
  if select o then
    match type o, data o with
    | FONT, TextCurve c => with_mesh MESH (Glyphs (default EmptyString (cs !! c))) o
    | _, _ => o
    end
  else o.

(** [bpy.ops.object.convert(target='MESH')]: needs object mode and a selected
    active object; every selected text becomes a mesh, and the active object
    stays what it was. *)
Definition object_convert_mesh : M unit :=
  ok <- gets in_object_mode ;;
  poll ok ;;
  a <- gets active_object ;;
  h <- unwrap RuntimeError a ;;
  o <- get_object h ;;
  poll (select o) ;;
  modify (fun w => map_objects (convert_one (curves w)) w).

Fixpoint editable_from (i a : nat) (t : obtype) (l : list (option object)) : list nat :=
  match l with
  | [] => []
  | Some o :: l' =>
      if bool_decide (i = a) || (select o && bool_decide (type o = t))
      then i :: editable_from (S i) a t l'
      else editable_from (S i) a t l'
  | None :: l' => editable_from (S i) a t l'
  end.

(** [bpy.ops.object.mode_set(mode='EDIT')]: the active object enters edit
    mode, and with it every selected object of the same type. *)
Definition mode_set_edit : M unit :=
  a <- gets active_object ;;
  h <- unwrap RuntimeError a ;;
  o <- get_object h ;;
  m <- gets mode ;;
  match m, type o with
  | EDIT _ _, _ => ret tt
  | OBJECT, (MESH | FONT) =>
      modify (fun w => set_mode (EDIT (editable_from 0 h (type o) (objects w)) false) w)
  | OBJECT, _ => raise TypeError
  end.

(** [bpy.ops.object.mode_set(mode='OBJECT')]. *)
Definition mode_set_object : M unit :=
  modify (set_mode OBJECT).

Definition editing_mesh (w : world) : bool :=
  match mode w, active_object w ≫= (fun h => mjoin (objects w !! h)) with
  | EDIT _ _, Some o => bool_decide (type o = MESH)
  | _, _ => false
  end.

(** [bpy.ops.mesh.select_all(action='SELECT')]: an edit-mesh operator. *)
Definition mesh_select_all : M unit :=
  ok <- gets editing_mesh ;;
  poll ok ;;
  modify (fun w => match mode w with
                   | EDIT l _ => set_mode (EDIT l true) w
                   | OBJECT => w
                   end).

Fixpoint extrude_from (i : nat) (l : list nat) (v : vec3) (os : list (option object))
  : list (option object) :=
  match os with
  | [] => []
  | o :: os' =>
      (if decide (i ∈ l)
       then (fun ob : object => with_mesh MESH (Extruded (data ob) v) ob) <$> o
       else o) :: extrude_from (S i) l v os'
  end.

(** [bpy.ops.mesh.extrude_region_move(TRANSFORM_OT_translate={"value": v})]:
    the selected geometry of every mesh in edit mode is extruded and the new
    region moved by [v]; afterwards only the new region is selected. *)
Definition extrude_region_move (v : vec3) : M unit :=
  ok <- gets editing_mesh ;;
  poll ok ;;
  modify (fun w => match mode w with
                   | EDIT l true => set_mode (EDIT l false) (set_objects (extrude_from 0 l v (objects w)) w)
                   | _ => w
                   end).

(** [bpy.ops.object.delete()]: removes the selected objects (which the view
    layer shows, see [select_all]) from the data, from every collection and,
    if it was one of them, as active object. *)
Definition object_delete : M unit :=
  ok <- gets in_object_mode ;;
  poll ok ;;
  dead <- gets selected_objects ;;
  let keep := filter (fun h : nat => h ∉ dead) in
  modify (fun w =>
    set_objects ((fun o : option object =>
                    o ≫= fun ob : object => if select ob then None else Some ob) <$> objects w)
      (set_active_object (active_object w ≫= fun h => if decide (h ∈ dead) then None else Some h)
         (set_scene_objects (keep (scene_objects w))
            (set_collections ((fun c => Collection (keep (coll_objects c))) <$> collections w) w)))).

(** ** Host runtime: collections *)

(** [bpy.data.collections.new(name=...)]. *)
Definition collections_new (nm : string) : M string :=
  key <- gets (fun w => fresh_string nm (collections w)) ;;
  modify (fun w => set_collections (<[key := Collection []]> (collections w)) w) ;;
  ret key.

(** [scene.collection.children.link(coll)]. *)
Definition scene_children_link (c : string) : M unit :=
  l <- gets scene_children ;;
  if decide (c ∈ l) then raise RuntimeError
  else modify (set_scene_children (l ++ [c])).

(** [bpy.data.collections.remove(coll)]; when the active collection goes,
    the scene's root collection becomes the active one. *)
Definition collections_remove (c : string) : M unit :=
  modify (fun w =>
    set_collections (delete c (collections w))
      (set_scene_children (filter (fun n => n ≠ c) (scene_children w))
         (set_active_collection
            (active_collection w ≫= fun a => if decide (a = c) then None else Some a) w))).

(** ** Host runtime: add-ons, files, images *)

(** [addon_utils.check(name)]: the pair (loaded by default, loaded now). *)
Definition addon_check (nm : string) : M (bool * bool) :=
  emit (AddonCheck nm) ;;
  st <- gets (fun w => bool_decide (nm ∈ addons w)) ;;
  ret (st, st).

(** [addon_utils.enable(name)]. *)
Definition addon_enable (nm : string) : M unit :=
  emit (AddonEnable nm) ;;
  modify (fun w => set_addons ({[nm]} ∪ addons w) w).

(** A path is the string [str(path)] gives.  [path.exists()]. *)
Definition path_exists (p : string) : M bool :=
  emit (PathExists p) ;;
  gets (fun w => bool_decide (is_Some (files w !! p))).

Fixpoint final_component (acc s : string) : string :=
  match s with
  | EmptyString => acc
  | String c s' =>
      if Ascii.eqb c "/"%char then final_component EmptyString s'
      else final_component (acc +:+ String c EmptyString) s'
  end.

(** [path.name]. *)
Definition path_name (p : string) : string := final_component EmptyString p.

Fixpoint has_dot (s : string) : bool :=
  match s with
  | EmptyString => false
  | String c s' => Ascii.eqb c "."%char || has_dot s'
  end.

(** A file name without its extension: what the importer names the plane. *)
Fixpoint display_name (s : string) : string :=
  match s with
  | EmptyString => EmptyString
  | String c s' =>
      if Ascii.eqb c "."%char && negb (has_dot s') then EmptyString
      else String c (display_name s')
  end.

(** [print(...)]. *)
Definition print (line : string) : M unit :=
  modify (fun w => set_stdout (stdout w ++ [line]) w).

Definition addon_name : string := "io_import_images_as_planes".

(** The graph the importer gives the plane's material with its default
    options: an image texture feeding a principled shader (of the shader's
    inputs only the leading ones are listed, and the link of the texture's
    alpha, which ends in a later one, is left out). *)
Definition image_tree : node_tree :=
  NodeTree
    [Node "Material Output" ShaderNodeOutputMaterial (default_inputs ShaderNodeOutputMaterial);
     Node "Image Texture" ShaderNodeTexImage (default_inputs ShaderNodeTexImage);
     Node "Principled BSDF" ShaderNodeBsdfPrincipled (default_inputs ShaderNodeBsdfPrincipled)]
    [Link "Image Texture" 0 "Principled BSDF" 0;
     Link "Principled BSDF" 0 "Material Output" 0].

(** [bpy.ops.import_image.to_plane(files=[{'name': p}])].  The operator exists
    only while its add-on is enabled.  It leaves edit mode, loads the image
    into [bpy.data.images] under the file's name (an image of that name is
    taken to be this file's), makes the material called after the file, or
    rebuilds the one of that name, and adds at the 3D cursor a plane showing
    the image, sized by the host from the pixel size, called after the file
    too and carrying that material. *)
Definition import_image_to_plane (p : string) : M unit :=
  enabled <- gets (fun w => bool_decide (addon_name ∈ addons w)) ;;
  (if enabled : bool then ret tt else raise AttributeError) ;;
  f <- gets (fun w => files w !! p) ;;
  size <- unwrap RuntimeError (mjoin f) ;;
  modify (set_mode OBJECT) ;;
  modify (fun w => set_images (<[path_name p := size]> (images w)) w) ;;
  let nm := display_name (path_name p) in
  modify (fun w => set_materials (<[nm := Material true (Some image_tree)]> (materials w)) w) ;;
  at_cursor <- gets cursor_location ;;
  operator_add
    (Object nm MESH (ImagePlane (path_name p)) [nm] true (1, 1, 1, 1) None at_cursor false) ;;
  ret tt.

(** [bpy.data.images[nm].size]. *)
Definition images_getitem (nm : string) : M (Z * Z) :=
  found <- gets (fun w => images w !! nm) ;;
  unwrap KeyError found.

(** Python's [/] on two integers: the quotient rounded to the nearest double.
    Both operands are pixel counts, far below [2 ^ 53], so each is a double
    and the rounded quotient is the quotient of the two doubles. *)
Definition true_div (a b : Z) : M float :=
  if decide (b = 0%Z) then raise ZeroDivisionError
  else ret (float_of_Z a / float_of_Z b).

(** ** Scene Reset *)

Definition init_blender_env : M unit :=
  emit (Call SceneReset) ;;
  select_all SELECT ;;
  object_delete ;;
  (* Get a list of all user-created collections *)
  user_collections <- gets (fun w =>
    filter (fun n => String.prefix "Scene" n = false) (map_to_list (collections w)).*1) ;;
  (* Iterate over the user-created collections and delete them *)
  for_each user_collections collections_remove.

(** ** Base Surface Loader *)

Definition load_us_map (max_size_dim : float) (image_path : string) : M unit :=
  emit (Call BaseSurfaceLoader) ;;
  st <- addon_check addon_name ;;
  let '(laoded_default, loaded_state) := st in
  (if negb loaded_state then addon_enable addon_name else ret tt) ;;
  found <- path_exists image_path ;;
  if found : bool then
    import_image_to_plane image_path ;;
    (* Get a reference to the newly created plane object *)
    sel <- gets selected_objects ;;
    plane <- unwrap IndexError (sel !! 0%nat) ;;
    image <- images_getitem (path_name image_path) ;;
    let width := image.1 in
    let length := image.2 in
    (* We want to keep the aspect ratio of the map image *)
    length_ratio <- true_div length width ;;
    let plane_width := max_size_dim in
    let plane_length := plane_width * length_ratio in
    (* Set the size of the plane *)
    update_object plane (with_dimensions (plane_width, plane_length, 0)) ;;
    (* Set the location of the plane to the origin *)
    update_object plane (with_location (0, 0, 0))
  else
    print ("File not found: " +:+ image_path).

(** ** Label Geometry Builder *)

Definition new_text (baseid text : string) : M nat :=
  emit (Call LabelGeometryBuilder) ;;
  font_curve <- curves_new (baseid +:+ "_curve") ;;
  set_body font_curve text ;;
  font_obj <- objects_new (baseid +:+ "_font") FONT (TextCurve font_curve) ;;
  scene_objects_link font_obj ;;
  ret font_obj.

(** ** Marker Composer and Run Driver

    Python's rendering of a float by [str.format] is a parameter. *)

Section Composer.
Variable format_float : float -> string.

Definition format3 (prefix : string) (x y z : float) : string :=
  prefix +:+ format_float x +:+ "_" +:+ format_float y +:+ "_" +:+ format_float z.

Definition draw_object (x y z : float) (mat label texmat : string) : M unit :=
  emit (Call MarkerComposer) ;;
  primitive_cylinder_add 0.5 0.5 (x, y, z) ;;
  active <- gets active_object ;;
  led <- unwrap AttributeError active ;;
  data_materials_append led mat ;;
  set_name led (format3 "LED_" x y z) ;;

  let text_str := format3 "Text_" x y z in
  text <- new_text text_str label ;;
  update_object text (with_color (0, 0, 0, 1)) ;;
  data_materials_append text texmat ;;

  text_o <- get_object text ;;
  by_name <- objects_getitem (name text_o) ;;
  select_set by_name true ;;
  object_convert_mesh ;;
  active <- gets active_object ;;
  mesh_obj <- unwrap AttributeError active ;;
  select_set mesh_obj true ;;
  mode_set_edit ;;
  mesh_select_all ;;
  extrude_region_move (0, 0, 0.3) ;;
  mode_set_object ;;

  select_all DESELECT ;;

  led_o <- get_object led ;;
  led_obj <- objects_getitem (name led_o) ;;
  text_o <- get_object text ;;
  font_obj <- objects_getitem (name text_o) ;;

  select_set led_obj true ;;
  select_set font_obj true ;;

  update_object font_obj (with_dimensions (0.5, 0.5, 0.3)) ;;
  update_object font_obj (with_location (x - 0.25, y - 0.25, 0.3)) ;;

  (* Create a new collection *)
  new_collection <- collections_new (label +:+ "_led") ;;

  (* Link the new collection to the current scene *)
  scene_children_link new_collection ;;

  (* Link the objects to the new collection *)
  collection_objects_link new_collection led_obj ;;
  collection_objects_link new_collection font_obj ;;

  (* deselect everything to ensure there is no conflict later *)
  select_all DESELECT.

Definition states_dict : list (string * vec3) :=
  [("AL", (14.0, -1.0, 0.0)); ("AK", (-3.0, -25.0, 0.0)); ("AZ", (-25.5, 1.0, 0.0));
   ("AR", (5.5, 1.0, 0.0)); ("CA", (-37.5, 13.0, 0.0)); ("CO", (-13.0, 11.0, 0.0));
   ("CT", (32.0, 18.5, 0.0)); ("DE", (29.5, 13.0, 0.0)); ("FL", (19.0, -6.0, 0.0));
   ("GA", (18.0, 0.0, 0.0)); ("HI", (-35.0, -25.0, 0.0)); ("ID", (-28.0, 21.0, 0.0));
   ("IL", (9.0, 11.0, 0.0)); ("IN", (14.0, 11.5, 0.0)); ("IA", (3.0, 14.0, 0.0));
   ("KS", (0.0, 9.0, 0.0)); ("KY", (16.0, 9.0, 0.0)); ("LA", (8.0, -7.0, 0.0));
   ("ME", (35.0, 24.0, 0.0)); ("MD", (28.0, 13.0, 0.0)); ("MA", (34.0, 20.5, 0.0));
   ("MI", (16.0, 17.0, 0.0)); ("MN", (4.0, 21.0, 0.0)); ("MS", (9.0, -3.0, 0.0));
   ("MO", (5.5, 8.5, 0.0)); ("MT", (-21.0, 25.5, 0.0)); ("NE", (-1.0, 16.0, 0.0));
   ("NV", (-35.0, 14.0, 0.0)); ("NH", (33.0, 22.0, 0.0)); ("NJ", (30.0, 15.0, 0.0));
   ("NM", (-15.5, 3.5, 0.0)); ("NY", (30.0, 20.0, 0.0)); ("NC", (26.0, 5.5, 0.0));
   ("ND", (-6.5, 24.0, 0.0)); ("OH", (18.5, 12.0, 0.0)); ("OK", (-2.5, 2.5, 0.0));
   ("OR", (-36.0, 25.5, 0.0)); ("PA", (23.0, 14.0, 0.0)); ("RI", (34.0, 19.0, 0.0));
   ("SC", (23.0, 2.0, 0.0)); ("SD", (-10.0, 19.0, 0.0)); ("TN", (14.0, 4.5, 0.0));
   ("TX", (-3.0, -7.5, 0.0)); ("UT", (-23.0, 14.0, 0.0)); ("VT", (31.0, 23.0, 0.0));
   ("VA", (27.0, 9.0, 0.0)); ("WA", (-34.0, 30.0, 0.0)); ("WV", (21.0, 9.5, 0.0));
   ("WI", (9.0, 17.0, 0.0)); ("WY", (-13.0, 14.0, 0.0))].

(** ['..._{}_{}_{}'.format(r, g, b)] on integers. *)
Definition format_ints (prefix : string) (r g b : Z) : string :=
  prefix +:+ pretty r +:+ "_" +:+ pretty g +:+ "_" +:+ pretty b.

(** One turn of the driver's loop. *)
Definition compose_entry (entry : string * vec3) : M unit :=
  let '(state, pos) := entry in
  let whitebalance := 255%Z in
  let r := whitebalance in
  let g := whitebalance in
  let b := whitebalance in
  let '(x, y, z) := pos in
  (* TODO this can be driven by data *)
  let intensity := 1 in
  mat <- new_shader (format_ints "LEDShader_" r g b) "emissive"
           (float_of_Z r) (float_of_Z g) (float_of_Z b) (Some intensity) ;;
  texmat <- new_shader (format_ints "TextShader_" 0 0 0) "diffuse" 0 0 0 None ;;
  draw_object x y z mat state texmat.

(** [pathlib.Path('res/png/' + filename)], as a string; [filename] is a
    plain file name, or empty. *)
Definition image_path (filename : string) : string :=
  "res/png" +:+ (if decide (filename = EmptyString) then EmptyString else "/" +:+ filename).

(** The body of [if __name__ == "__main__":] for a given file name. *)
Definition run_driver (filename : string) (entries : list (string * vec3)) : M unit :=
  load_us_map 90 (image_path filename) ;;
  for_each entries compose_entry.

(** The source leaves the file name empty. *)
Definition main : M unit := run_driver EmptyString states_dict.
End Composer.

(** ** Concrete data for running the model *)

Fixpoint fraction_digits (fuel : nat) (rem den : Z) : string :=
  match fuel with
  | O => EmptyString
  | S fuel' =>
      if decide (rem = 0%Z) then EmptyString
      else pretty (rem * 10 / den)%Z +:+ fraction_digits fuel' (rem * 10 mod den)%Z den
  end.

(** A float formatter for running the model: it prints a double whose
    decimal expansion is short the way Python does ([14.0], [-25.5], [0.25]).
    The value of a finite double is [m * 2 ^ e]. *)
Definition decimal (f : float) : string :=
  match Prim2SF f with
  | SpecFloat.S754_zero s => if s then "-0.0" else "0.0"
  | SpecFloat.S754_infinity s => if s then "-inf" else "inf"
  | SpecFloat.S754_nan => "nan"
  | SpecFloat.S754_finite s m e =>
      let n := (Z.pos m * 2 ^ Z.max e 0)%Z in
      let d := (2 ^ Z.max (- e) 0)%Z in
      (if s then "-" else EmptyString) +:+ pretty (n / d)%Z +:+ "." +:+
      (if decide (n mod d = 0)%Z then "0" else fraction_digits 17 (n mod d)%Z d)
  end.

(** The host's factory scene: a cube, a light and a camera in the collection
    "Collection", which is the active one; the cube is selected and active. *)
Definition startup : world :=
  World
    [Some (Object "Cube" MESH NoGeometry ["Material"] true (1, 1, 1, 1) (Some (2, 2, 2))
             (0, 0, 0) false);
     Some (Object "Light" LIGHT NoGeometry [] false (1, 1, 1, 1) None (4, 1, 6) false);
     Some (Object "Camera" CAMERA NoGeometry [] false (1, 1, 1, 1) None (7, -7, 5) false)]
    (Some 0%nat) OBJECT (0, 0, 0) [] ["Collection"] (Some "Collection")
    {["Collection" := Collection [0; 1; 2]%nat]}
    {["Material" := Material true (Some default_tree)]}
    ∅ ∅ ∅ ∅ [] [].

(** ** Worlds the loader leaves behind *)

Definition deselect_all (l : list (option object)) : list (option object) :=
  (fun o : option object => with_select false <$> o) <$> l.

(** After the loader's add-on toggle and its look at the path. *)
Definition after_toggle (p : string) (w : world) : world :=
  let enabled := bool_decide (addon_name ∈ addons w) in
  set_trace
    (trace w ++ [Call BaseSurfaceLoader; AddonCheck addon_name] ++
     (if enabled then [] else [AddonEnable addon_name]) ++ [PathExists p])
    (set_addons (if enabled then addons w else {[addon_name]} ∪ addons w) w).

(** The plane object the loader ends with. *)
Definition surface (max_size_dim : float) (p : string) (size : Z * Z) (w : world) : object :=
  Object (unique_name (object_names (objects w)) (display_name (path_name p)))
    MESH (ImagePlane (path_name p)) [display_name (path_name p)] true (1, 1, 1, 1)
    (Some (max_size_dim, max_size_dim * (float_of_Z size.2 / float_of_Z size.1), 0))
    (0, 0, 0) false.

Definition with_surface (max_size_dim : float) (p : string) (size : Z * Z) (w : world) : world :=
  let w1 := after_toggle p w in
  set_active_object (Some (length (objects w)))
    (link_active (length (objects w))
       (set_objects (deselect_all (objects w) ++ [Some (surface max_size_dim p size w)])
          (set_materials
             (<[display_name (path_name p) := Material true (Some image_tree)]> (materials w))
             (set_images (<[path_name p := size]> (images w))
                (set_mode OBJECT w1))))).

(** ** What a computation adds to the trace

    [emits P c]: from every world, whatever its outcome, [c] only appends
    events satisfying [P] to the trace. *)

Definition emits (P : event -> Prop) {A} (c : M A) : Prop :=
  forall w, exists evs, trace (c w).2 = trace w ++ evs /\ Forall P evs.


(** [keeps f c]: [c] never changes the part [f] of the world. *)
Definition keeps {X} (f : world -> X) {A} (c : M A) : Prop :=
  forall w, f (c w).2 = f w.

(** ** The world a marker composition leaves behind *)

Section Composed.
Variable format_float : float -> string.
Variables (x y z : float) (mat label texmat : string) (w : world).

Definition marker_ref : nat := length (objects w).
Definition label_ref : nat := S (length (objects w)).

Definition marker_name : string :=
  unique_name (object_names (objects w)) (format3 format_float "LED_" x y z).
Definition label_name : string :=
  unique_name (object_names (objects w) ++ [marker_name])
    (format3 format_float "Text_" x y z +:+ "_font").
Definition curve_name : string :=
  unique_name (elements (dom (curves w))) (format3 format_float "Text_" x y z +:+ "_curve").
Definition group_name : string :=
  fresh_string (label +:+ "_led") (collections (link_active marker_ref w)).

Definition marker_object : object :=
  Object marker_name MESH (Extruded (Cylinder 0.5 0.5) (0, 0, 0.3)) [mat] false
    (1, 1, 1, 1) (Some (2 * 0.5, 2 * 0.5, 0.5)) (x, y, z) false.
Definition label_object : object :=
  Object label_name MESH (Extruded (Glyphs label) (0, 0, 0.3)) [texmat] false
    (0, 0, 0, 1) (Some (0.5, 0.5, 0.3)) (x - 0.25, y - 0.25, 0.3) false.

Definition composed : world :=
  set_collections
    (<[group_name := Collection [marker_ref; label_ref]]>
       (collections (link_active marker_ref w)))
    (set_scene_children (scene_children w ++ [group_name])
       (set_scene_objects (scene_objects (link_active marker_ref w) ++ [label_ref])
          (set_curves (<[curve_name := label]> (curves w))
             (set_objects (deselect_all (objects w) ++ [Some marker_object; Some label_object])
                (set_active_object (Some marker_ref)
                   (set_mode OBJECT
                      (set_trace (trace w ++ [Call MarkerComposer; Call LabelGeometryBuilder])
                         w))))))).
End Composed.

(** Host states the composer is run from: object mode, and the scene's root
    collection holds no reference to an object or collection that is not there. *)
Definition wf (w : world) : Prop :=
  mode w = OBJECT /\
  Forall (fun h : nat => (h < length (objects w))%nat) (scene_objects w) /\
  Forall (fun c => is_Some (collections w !! c)) (scene_children w).

(** ** The world the driver's loop leaves behind *)

Definition led_shader : string := "LEDShader_255_255_255".
Definition text_shader : string := "TextShader_0_0_0".

Definition entry_world fmt (entry : string * vec3) (w : world) : world :=
  let '(state, (x, y, z)) := entry in
  composed fmt x y z led_shader state text_shader
    (with_graph text_shader (diffuse_tree 0 0 0)
       (with_graph led_shader
          (emission_tree (float_of_Z 255) (float_of_Z 255) (float_of_Z 255) 1) w)).

Definition loop_world fmt (entries : list (string * vec3)) (w : world) : world :=
  foldl (fun w e => entry_world fmt e w) w entries.


(** ** Notions the statements use *)

(** The scene: everything but the add-ons, the files, the output and the trace. *)
Definition scene (w : world) :=
  (objects w, active_object w, mode w, cursor_location w, scene_objects w,
   scene_children w, active_collection w, collections w, materials w, curves w,
   images w).

(** The container an operator links a new object into: the active collection
    if there is one, else the scene's root collection ([None]). *)
Definition target_collection (w : world) : option string :=
  active_collection w ≫= fun c => collections w !! c ≫= fun _ => Some c.

(** [h] is linked to the root collection ([None]) or to a named collection. *)
Definition linked_in (container : option string) (h : nat) (w : world) : Prop :=
  match container with
  | None => h ∈ scene_objects w
  | Some c => exists coll, collections w !! c = Some coll /\ h ∈ coll_objects coll
  end.

Definition count_nodes (P : node_kind -> bool) (t : node_tree) : nat :=
  length (filter (fun n => P (node_type n) = true) (nodes t)).

Definition is_output (k : node_kind) : bool :=
  bool_decide (k = ShaderNodeOutputMaterial).
Definition is_shader (k : node_kind) : bool :=
  negb (is_output k).

(** A request to the factory: kind, colour, intensity. *)
Definition request : Type := string * (float * float * float) * option float.

Definition valid_request (q : request) : Prop :=
  let '(kind, _, intensity) := q in
  (kind = "emissive" /\ is_Some intensity) \/ kind = "diffuse".

(** The factory called once per request, always with the same key. *)
Definition shader_calls (id : string) (qs : list request) : M unit :=
  for_each qs (fun q =>
    let '(kind, (r, g, b), intensity) := q in
    new_shader id kind r g b intensity ;; ret tt).

(** The factory scene with a map image of 2000 by 1000 pixels on disk. *)
Definition startup_with_map : world :=
  World (objects startup) (active_object startup) (mode startup) (cursor_location startup)
    (scene_objects startup) (scene_children startup) (active_collection startup)
    (collections startup) (materials startup) (curves startup) (images startup)
    (addons startup) {["res/png/us_map.png" := Some (2000, 1000)%Z]} [] [].


(** The value of a finite double, as a fraction with a positive denominator. *)
Definition exact (f : float) : option (Z * Z) :=
  match Prim2SF f with
  | SpecFloat.S754_zero _ => Some (0, 1)%Z
  | SpecFloat.S754_finite s m e =>
      Some ((if s then Z.neg m else Z.pos m) * 2 ^ Z.max e 0, 2 ^ Z.max (- e) 0)%Z
  | _ => None
  end.

(** In real numbers [len] is [D * H / W]; for [D] other than 0 that is to say
    that [len / D] is [H / W]. *)
Definition exactly_scaled (len D : float) (H W : Z) : bool :=
  match exact len, exact D with
  | Some (a, b), Some (c, d) => bool_decide (a * d * W = c * H * b)%Z
  | _, _ => false
  end.

(** What one turn of the driver's loop adds to the trace. *)
Definition turn_events : list event :=
  [Call ShaderGraphFactory; Call ShaderGraphFactory; Call MarkerComposer;
   Call LabelGeometryBuilder].

(** ** Further notions *)

(** The graph a valid request asks for. *)
Definition requested_tree (q : request) : node_tree :=
  let '(kind, (r, g, b), intensity) := q in
  if decide (kind = "emissive") then emission_tree r g b (default 1 intensity)
  else diffuse_tree r g b.

(** What an emissive request without intensity leaves: both nodes, the colour
    set, the strength at its default, and no link. *)
Definition unlinked_emission_tree (r g b : float) : node_tree :=
  NodeTree
    [output_node;
     Node "Emission" ShaderNodeEmission [SockColor (r, g, b, 1); SockFloat 1]]
    [].

(** Everything of the world that is not the material store or the trace. *)
Definition outside_materials (w : world) :=
  (objects w, active_object w, mode w, cursor_location w, scene_objects w,
   scene_children w, active_collection w, collections w, curves w, images w,
   addons w, files w, stdout w).

(** The factory scene with an image file of no extent on disk. *)
Definition startup_with_empty_image : world :=
  World (objects startup) (active_object startup) (mode startup) (cursor_location startup)
    (scene_objects startup) (scene_children startup) (active_collection startup)
    (collections startup) (materials startup) (curves startup) (images startup)
    (addons startup) {["res/png/empty.png" := Some (0, 0)%Z]} [] [].

(** The factory scene with its light hidden. *)
Definition startup_with_hidden_light : world :=
  set_objects
    (<[1%nat := Some (Object "Light" LIGHT NoGeometry [] false (1, 1, 1, 1) None (4, 1, 6) true)]>
       (objects startup))
    startup.

(** A scene as Scene Reset leaves it: object mode, no object that is
    selected or that the view layer offers for selection, and only
    collections whose name starts with "Scene". *)
Definition reset_state (w : world) : Prop :=
  mode w = OBJECT /\
  (forall h o, objects w !! h = Some (Some o) ->
     select o = false /\ selectable w h o = false) /\
  (forall k, is_Some (collections w !! k) -> String.prefix "Scene" k = true).

(** The world after removing the collections of a list, one by one. *)
Definition remove_collections (l : list string) (w : world) : world :=
  foldl (fun w c => (collections_remove c w).2) w l.

(** What deleting does to a slot of [bpy.data.objects]. *)
Definition delete_selected (o : option object) : option object :=
  o ≫= fun ob : object => if select ob then None else Some ob.

(** The world Scene Reset leaves when it is run in object mode. *)
Definition after_reset (w : world) : world :=
  let marked := objects (select_visible w) in
  let dead := selected_from 0 marked in
  let keep := filter (fun h : nat => h ∉ dead) in
  let w1 :=
    World (delete_selected <$> marked)
      (active_object w ≫= fun h => if decide (h ∈ dead) then None else Some h)
      (mode w) (cursor_location w) (keep (scene_objects w)) (scene_children w)
      (active_collection w)
      ((fun c => Collection (keep (coll_objects c))) <$> collections w)
      (materials w) (curves w) (images w) (addons w) (files w) (stdout w)
      (trace w ++ [Call SceneReset]) in
  remove_collections
    (filter (fun n => String.prefix "Scene" n = false) (map_to_list (collections w1)).*1) w1.

(** The text object [new_text] makes, and the world it leaves (the link to
    the scene's root is refused when the reference is already there). *)
Definition text_object (baseid : string) (w : world) : object :=
  Object (unique_name (object_names (objects w)) (baseid +:+ "_font")) FONT
    (TextCurve (unique_name (elements (dom (curves w))) (baseid +:+ "_curve")))
    [] false (1, 1, 1, 1) None (0, 0, 0) false.

Definition after_new_text (baseid text : string) (w : world) : world :=
  set_scene_objects
    (if decide (length (objects w) ∈ scene_objects w) then scene_objects w
     else scene_objects w ++ [length (objects w)])
    (set_objects (objects w ++ [Some (text_object baseid w)])
       (set_curves
          (<[unique_name (elements (dom (curves w))) (baseid +:+ "_curve") := text]> (curves w))
          (set_trace (trace w ++ [Call LabelGeometryBuilder]) w))).

(** The factory scene after the dataset's first marker has been composed. *)
Definition after_first_marker : world :=
  (draw_object decimal 14.0 (-1.0) 0.0 led_shader "AL" text_shader startup).2.

(** A slot of [bpy.data.objects] seen without its selection flag. *)
Definition unselected (o : option (option object)) : option (option object) :=
  (fun o' : option object => with_select false <$> o') <$> o.

(** The group names the driver's loop asks for. *)
Definition group_names (entries : list (string * vec3)) : list string :=
  (fun e : string * vec3 => e.1 +:+ "_led") <$> entries.

(** The two materials every turn of the driver's loop rebuilds. *)
Definition with_shaders (m : gmap string material) : gmap string material :=
  <[text_shader := Material true (Some (diffuse_tree 0 0 0))]>
    (<[led_shader :=
         Material true
           (Some (emission_tree (float_of_Z 255) (float_of_Z 255) (float_of_Z 255) 1))]> m).

(** * Proofs *)

Lemma fresh_string_of_set_free (s : string) (X : stringset) :
  s ∉ X -> fresh_string_of_set s X = s.
Proof.
  intros H. unfold fresh_string_of_set, fresh_string.
  destruct (mapset.mapset_car X !! s) as [[]|] eqn:E; [|done].
  exfalso. apply H. exact E.
Qed.

Lemma unique_name_free used base : base ∉ used -> unique_name used base = base.
Proof.
  intros H. apply fresh_string_of_set_free. by rewrite elem_of_list_to_set.
Qed.

Lemma unique_name_fresh used base : unique_name used base ∉ used.
Proof.
  intros H. apply (fresh_string_of_set_fresh (list_to_set used) base).
  by apply elem_of_list_to_set.
Qed.

(** ** Stepping through monadic code *)

Lemma bind_ok {A B} (c : M A) (k : A -> M B) w a w' :
  c w = (Ok a, w') -> bind c k w = k a w'.
Proof. intros H. unfold bind. by rewrite H. Qed.

Lemma bind_raise {A B} (c : M A) (k : A -> M B) w e w' :
  c w = (Raise e, w') -> bind c k w = (Raise e, w').
Proof. intros H. unfold bind. by rewrite H. Qed.

Lemma bind_assoc {A B C} (c : M A) (k : A -> M B) (k' : B -> M C) w :
  bind (bind c k) k' w = bind c (fun x => bind (k x) k') w.
Proof. unfold bind. by destruct (c w) as [[a|e] w']. Qed.

Lemma bind_ret {A B} (a : A) (k : A -> M B) w : bind (ret a) k w = k a w.
Proof. reflexivity. Qed.

Lemma bind_gets {A B} (f : world -> A) (k : A -> M B) w : bind (gets f) k w = k (f w) w.
Proof. reflexivity. Qed.

Lemma bind_modify {B} (f : world -> world) (k : unit -> M B) w :
  bind (modify f) k w = k tt (f w).
Proof. reflexivity. Qed.

Lemma bind_emit {B} (e : event) (k : unit -> M B) w :
  bind (emit e) k w = k tt (set_trace (trace w ++ [e]) w).
Proof. reflexivity. Qed.

Lemma bind_unwrap {A B} e (a : A) (k : A -> M B) w : bind (unwrap e (Some a)) k w = k a w.
Proof. reflexivity. Qed.

Lemma bind_poll {B} (k : unit -> M B) w : bind (poll true) k w = k tt w.
Proof. reflexivity. Qed.

Lemma run_ret {A} (a : A) w : ret a w = (Ok a, w).
Proof. reflexivity. Qed.

Lemma run_modify (f : world -> world) w : modify f w = (Ok tt, f w).
Proof. reflexivity. Qed.

Lemma run_raise {A} e w : raise (A:=A) e w = (Raise e, w).
Proof. reflexivity. Qed.

Ltac wsimpl :=
  cbv beta iota zeta delta
      [set_objects set_active_object set_mode set_scene_objects
       set_scene_children set_active_collection set_collections set_materials
       set_curves set_images set_addons set_stdout set_trace
       link_active after_toggle
       with_name with_mesh with_data_materials with_select with_color
       with_dimensions with_location
       objects active_object mode cursor_location scene_objects scene_children
       active_collection collections materials curves images addons files
       stdout trace mat_tree use_nodes nodes links node_name node_type
       node_inputs coll_objects fst snd
       name type data data_materials select color dimensions location hidden] in *.

Ltac pre :=
  wsimpl; rewrite ?lookup_insert_eq; try reflexivity; try eassumption.

(** Runs the statements at the head that need no fact about the world. *)
Ltac msimpl :=
  repeat (progress (rewrite ?bind_assoc, ?bind_ret, ?bind_gets, ?bind_modify, ?bind_emit,
                      ?bind_unwrap, ?bind_poll, ?run_ret, ?run_modify, ?run_raise;
                    cbv beta; wsimpl)).

(** [step lem]: run the first statement with its specification [lem]. *)
Tactic Notation "step" uconstr(lem) :=
  erewrite bind_ok; [ | (apply lem || eapply lem); pre ]; cbv beta; wsimpl.

Section MaterialOps.
Context (key : string) (w : world) (m : material).
Hypothesis Hm : materials w !! key = Some m.

Lemma get_material_ok : get_material key w = (Ok m, w).
Proof. unfold get_material, gets, unwrap. erewrite bind_ok by reflexivity. by rewrite Hm. Qed.

Lemma get_tree_ok t : mat_tree m = Some t -> get_tree key w = (Ok t, w).
Proof. intros Ht. unfold get_tree. step get_material_ok. by rewrite Ht. Qed.

Lemma put_tree_ok t :
  put_tree key t w =
  (Ok tt, set_materials (<[key := Material (use_nodes m) (Some t)]> (materials w)) w).
Proof. unfold put_tree. step get_material_ok. done. Qed.

Lemma set_use_nodes_ok :
  set_use_nodes key w =
  (Ok tt, set_materials
            (<[key := Material true
                        (Some (match mat_tree m with Some t => t | None => default_tree end))]>
               (materials w)) w).
Proof. unfold set_use_nodes. step get_material_ok. done. Qed.

Section WithTree.
Context (t : node_tree).
Hypothesis Ht : mat_tree m = Some t.

Lemma links_clear_ok :
  links_clear key w =
  (Ok tt, set_materials
            (<[key := Material (use_nodes m) (Some (NodeTree (nodes t) []))]> (materials w)) w).
Proof. unfold links_clear. step get_tree_ok. apply put_tree_ok. Qed.

Lemma nodes_clear_ok :
  nodes_clear key w =
  (Ok tt, set_materials
            (<[key := Material (use_nodes m) (Some (NodeTree [] []))]> (materials w)) w).
Proof. unfold nodes_clear. step get_tree_ok. apply put_tree_ok. Qed.

Lemma nodes_new_ok k :
  let nm := unique_name (node_name <$> nodes t) (default_name k) in
  nodes_new key k w =
  (Ok nm, set_materials
            (<[key := Material (use_nodes m)
                        (Some (NodeTree (nodes t ++ [Node nm k (default_inputs k)]) (links t)))]>
               (materials w)) w).
Proof.
  intros nm. unfold nodes_new. step get_tree_ok.
  erewrite bind_ok by apply put_tree_ok. done.
Qed.

Lemma links_new_ok a i b j :
  links_new key a i b j w =
  (Ok tt, set_materials
            (<[key := Material (use_nodes m)
                        (Some (NodeTree (nodes t) (links t ++ [Link a i b j])))]>
               (materials w)) w).
Proof. unfold links_new. step get_tree_ok. apply put_tree_ok. Qed.

Lemma set_default_value_ok nm i v j n s s' :
  node_index nm t = Some (j, n) ->
  node_inputs n !! i = Some s ->
  assign_socket s v = Ok s' ->
  set_default_value key nm i v w =
  (Ok tt, set_materials
            (<[key := Material (use_nodes m)
                 (Some (NodeTree
                    (<[j := Node (node_name n) (node_type n) (<[i := s']> (node_inputs n))]> (nodes t))
                    (links t)))]> (materials w)) w).
Proof.
  intros Hn Hs Ha. unfold set_default_value. step get_tree_ok.
  rewrite Hn. unfold unwrap at 1. erewrite bind_ok by reflexivity.
  cbv beta iota.
  rewrite Hs. unfold unwrap at 1. erewrite bind_ok by reflexivity.
  rewrite Ha. apply put_tree_ok.
Qed.
End WithTree.
End MaterialOps.

Lemma new_material_spec id w :
  new_material id w =
  (Ok id, set_materials (<[id := Material true (Some (NodeTree [] []))]> (materials w)) w).
Proof.
  unfold new_material.
  erewrite bind_ok by reflexivity.
  destruct (materials w !! id) as [m|] eqn:E.
  - erewrite (bind_ok (ret id)) by reflexivity.
    step set_use_nodes_ok. step get_material_ok.
    erewrite bind_ok.
    2:{ erewrite bind_ok by (eapply links_clear_ok; pre).
        eapply nodes_clear_ok; pre. }
    wsimpl. unfold ret. by rewrite !insert_insert_eq.
  - unfold materials_new.
    erewrite bind_ok.
    2:{ erewrite bind_ok by reflexivity. erewrite bind_ok by reflexivity. reflexivity. }
    rewrite unique_name_free.
    2:{ rewrite elem_of_elements, elem_of_dom, E. by intros []. }
    step set_use_nodes_ok. step get_material_ok.
    erewrite bind_ok.
    2:{ erewrite bind_ok by (eapply links_clear_ok; pre).
        eapply nodes_clear_ok; pre. }
    wsimpl. unfold ret. by rewrite !insert_insert_eq.
Qed.

(** ** Shader-Graph Factory: one call *)

Lemma new_shader_emissive id r g b q w :
  new_shader id "emissive" r g b (Some q) w = (Ok id, with_graph id (emission_tree r g b q) w).
Proof.
  unfold new_shader.
  erewrite bind_ok by reflexivity.
  step new_material_spec.
  step nodes_new_ok. rewrite unique_name_free by (rewrite list_elem_of_In; simpl; intuition discriminate).
  rewrite decide_True by done.
  erewrite bind_ok.
  2:{ step nodes_new_ok. rewrite unique_name_free by (rewrite list_elem_of_In; simpl; intuition discriminate).
      erewrite bind_ok.
      2:{ eapply set_default_value_ok; pre. }
      wsimpl.
      erewrite bind_ok.
      2:{ eapply set_default_value_ok; pre. }
      reflexivity. }
  rewrite decide_False by done.
  erewrite (bind_ok (ret _)) by reflexivity.
  cbv beta iota.
  step links_new_ok.
  unfold ret, with_graph, emission_tree, output_node. wsimpl.
  by rewrite !insert_insert_eq.
Qed.

Lemma new_shader_diffuse id r g b i w :
  new_shader id "diffuse" r g b i w = (Ok id, with_graph id (diffuse_tree r g b) w).
Proof.
  unfold new_shader.
  erewrite bind_ok by reflexivity.
  step new_material_spec.
  step nodes_new_ok. rewrite unique_name_free by (rewrite list_elem_of_In; simpl; intuition discriminate).
  rewrite decide_False by done.
  erewrite (bind_ok (ret _)) by reflexivity.
  rewrite decide_True by done.
  erewrite bind_ok.
  2:{ step nodes_new_ok. rewrite unique_name_free by (rewrite list_elem_of_In; simpl; intuition discriminate).
      erewrite bind_ok.
      2:{ eapply set_default_value_ok; pre. }
      reflexivity. }
  cbv beta iota.
  step links_new_ok.
  unfold ret, with_graph, diffuse_tree, output_node. wsimpl.
  by rewrite !insert_insert_eq.
Qed.

Lemma new_shader_unsupported id kind r g b i w :
  kind ≠ "emissive" -> kind ≠ "diffuse" ->
  new_shader id kind r g b i w =
  (Raise TypeError, with_graph id (NodeTree [output_node] []) w).
Proof.
  intros He Hd. unfold new_shader.
  erewrite bind_ok by reflexivity.
  step new_material_spec.
  step nodes_new_ok. rewrite unique_name_free by (rewrite list_elem_of_In; simpl; intuition discriminate).
  rewrite decide_False by done.
  erewrite (bind_ok (ret _)) by reflexivity.
  rewrite decide_False by done.
  erewrite (bind_ok (ret _)) by reflexivity.
  cbv beta iota.
  unfold raise, with_graph, output_node. wsimpl.
  by rewrite !insert_insert_eq.
Qed.

(** ** Lists of objects *)

Lemma length_deselect_all l : length (deselect_all l) = length l.
Proof. apply length_fmap. Qed.

Lemma lookup_snoc {A} (l : list A) (x : A) n :
  n = length l -> (l ++ [x]) !! n = Some x.
Proof. intros ->. by apply list_lookup_middle. Qed.

Lemma insert_snoc {A} (l : list A) (x y : A) n :
  n = length l -> <[n := y]> (l ++ [x]) = l ++ [y].
Proof. intros ->. rewrite insert_app_r_alt by lia. by rewrite Nat.sub_diag. Qed.

(** Side conditions on positions in the object list. *)
Ltac pos := rewrite ?length_app, ?length_deselect_all; simpl; lia.

Lemma object_names_deselect_all l : object_names (deselect_all l) = object_names l.
Proof.
  unfold object_names, deselect_all.
  induction l as [|[o|] l IH]; simpl; [done| |exact IH]. f_equal. exact IH.
Qed.

Lemma selected_from_deselect_all i l : selected_from i (deselect_all l) = [].
Proof. revert i. induction l as [|[o|] l IH]; intros i; simpl; auto. Qed.

Lemma selected_from_app i l1 l2 :
  selected_from i (l1 ++ l2) = selected_from i l1 ++ selected_from (i + length l1) l2.
Proof.
  revert i. induction l1 as [|[o|] l1 IH]; intros i; simpl.
  - by rewrite Nat.add_0_r.
  - rewrite IH, Nat.add_succ_r. simpl. by destruct (select o).
  - rewrite IH, Nat.add_succ_r. done.
Qed.

(** ** Base Surface Loader *)

Lemma load_toggle (p : string) {A} (k : bool -> M A) w :
  (emit (Call BaseSurfaceLoader) ;;
   st <- addon_check addon_name ;;
   let '(laoded_default, loaded_state) := st in
   (if negb loaded_state then addon_enable addon_name else ret tt) ;;
   found <- path_exists p ;;
   k found) w
  = k (bool_decide (is_Some (files w !! p))) (after_toggle p w).
Proof.
  unfold addon_check, path_exists, after_toggle. msimpl.
  destruct (bool_decide (addon_name ∈ addons w)); simpl negb; cbv iota zeta.
  - msimpl. simpl app. by rewrite <- !app_assoc.
  - unfold addon_enable. msimpl. simpl app. by rewrite <- !app_assoc.
Qed.

Lemma addon_toggled (X : gset string) :
  bool_decide (addon_name ∈ (if bool_decide (addon_name ∈ X) then X else {[addon_name]} ∪ X))
  = true.
Proof.
  destruct (bool_decide (addon_name ∈ X)) eqn:E; [done|].
  apply bool_decide_eq_true. set_solver.
Qed.

Lemma load_us_map_missing D p w :
  files w !! p = None ->
  load_us_map D p w =
  (Ok tt, set_stdout (stdout w ++ ["File not found: " +:+ p]) (after_toggle p w)).
Proof.
  intros Hf. unfold load_us_map. rewrite load_toggle.
  rewrite Hf. by rewrite bool_decide_eq_false_2 by (by intros []).
Qed.

Lemma operator_add_ok o w :
  operator_add o w =
  (Ok (length (objects w)),
   set_active_object (Some (length (objects w)))
     (link_active (length (objects w))
        (set_objects
           (deselect_all (objects w) ++
            [Some (with_name (unique_name (object_names (objects w)) (name o)) (with_select true o))])
           w))).
Proof.
  unfold operator_add, add_object, link_to_active_collection, map_objects. msimpl.
  fold (deselect_all (objects w)).
  rewrite length_deselect_all, object_names_deselect_all.
  reflexivity.
Qed.
Lemma load_us_map_existing D p size w :
  files w !! p = Some (Some size) -> size.1 ≠ 0%Z ->
  load_us_map D p w = (Ok tt, with_surface D p size w).
Proof.
  intros Hf Hw. unfold load_us_map. rewrite load_toggle.
  rewrite Hf. rewrite bool_decide_eq_true_2 by eauto.
  unfold import_image_to_plane. msimpl.
  rewrite addon_toggled. msimpl.
  rewrite Hf. simpl mjoin. msimpl.
  step operator_add_ok. msimpl.
  unfold selected_objects. wsimpl.
  rewrite selected_from_app, selected_from_deselect_all, length_deselect_all. simpl.
  msimpl.
  unfold images_getitem. msimpl. rewrite lookup_insert_eq. msimpl.
  unfold true_div. rewrite decide_False by done. msimpl.
  unfold update_object, get_object. msimpl.
  rewrite lookup_snoc by pos. simpl mjoin. msimpl.
  rewrite insert_snoc by pos. rewrite lookup_snoc by pos. simpl mjoin. msimpl.
  rewrite insert_snoc by pos.
  reflexivity.
Qed.

(** ** What a computation adds to the trace *)

Lemma emits_bind P {A B} (c : M A) (k : A -> M B) :
  emits P c -> (forall a, emits P (k a)) -> emits P (bind c k).
Proof.
  intros Hc Hk w. unfold bind. destruct (Hc w) as (e1 & H1 & F1).
  destruct (c w) as [[a|e] w1]; simpl in *.
  - destruct (Hk a w1) as (e2 & H2 & F2).
    exists (e1 ++ e2). rewrite H2, H1, app_assoc. split; [done|]. by apply Forall_app.
  - by exists e1.
Qed.

Lemma emits_silent P {A} (c : M A) : (forall w, trace (c w).2 = trace w) -> emits P c.
Proof. intros H w. exists []. by rewrite H, app_nil_r. Qed.

Lemma emits_emit (P : event -> Prop) e : P e -> emits P (emit e).
Proof. intros H w. exists [e]. split; [done|]. by constructor. Qed.

Lemma emits_for_each P {A} (l : list A) body :
  (forall a, emits P (body a)) -> emits P (for_each l body).
Proof.
  intros H. induction l as [|a l IH]; simpl.
  - by apply emits_silent.
  - apply emits_bind; auto.
Qed.

Ltac emits_step :=
  first
    [ apply emits_bind; [|intros]
    | apply emits_for_each; intros
    | apply emits_emit; solve [auto]
    | apply emits_silent; intros; reflexivity
    | apply emits_silent; intros; unfold modify; wsimpl; repeat case_match; reflexivity
    | match goal with
      | |- emits _ (match ?x with _ => _ end) => destruct x
      | |- emits _ (unwrap _ ?x) => destruct x
      | |- emits _ (poll ?x) => destruct x
      | |- emits _ (let '(_, _) := ?x in _) => destruct x
      end ].

Ltac emits_tac := repeat emits_step.

Create HintDb script.
#[local] Hint Unfold
  materials_new get_material get_tree put_tree set_use_nodes links_clear nodes_clear
  nodes_new set_default_value links_new new_material new_shader
  get_object update_object add_object objects_new objects_getitem set_name
  data_materials_append select_set select_all scene_objects_link
  collection_objects_link link_to_active_collection operator_add
  primitive_cylinder_add curves_new set_body object_convert_mesh mode_set_edit
  mode_set_object mesh_select_all extrude_region_move object_delete
  collections_new scene_children_link collections_remove addon_check addon_enable
  path_exists print import_image_to_plane images_getitem true_div
  init_blender_env load_us_map new_text draw_object compose_entry run_driver main : script.

Lemma run_driver_emits fmt filename entries (P : event -> Prop) :
  P (Call BaseSurfaceLoader) -> P (Call ShaderGraphFactory) ->
  P (Call LabelGeometryBuilder) -> P (Call MarkerComposer) ->
  (forall a, P (AddonCheck a)) -> (forall a, P (AddonEnable a)) -> (forall p, P (PathExists p)) ->
  emits P (run_driver fmt filename entries).
Proof.
  intros. autounfold with script. emits_tac.
Qed.
(** ** Marker Composer *)

Lemma object_names_app l1 l2 :
  object_names (l1 ++ l2) = object_names l1 ++ object_names l2.
Proof. apply omap_app. Qed.

Lemma find_object_fresh nm l : nm ∉ object_names l -> find_object nm l = None.
Proof.
  intros H. apply list_find_None, Forall_forall. intros o Ho Hn.
  apply H. apply list_elem_of_omap. eauto.
Qed.

Lemma find_object_snoc nm l o n :
  nm ∉ object_names l -> name o = nm -> n = length l ->
  find_object nm (l ++ [Some o]) = Some (n, Some o).
Proof.
  intros H <- ->. unfold find_object.
  rewrite list_find_app_r by (by apply find_object_fresh).
  simpl. rewrite decide_True by done. done.
Qed.

Lemma deselect_all_idem l : deselect_all (deselect_all l) = deselect_all l.
Proof.
  unfold deselect_all. rewrite <- list_fmap_compose.
  apply list_fmap_ext. by intros _ [o|] _.
Qed.

Lemma convert_deselect_all cs l :
  (fun o : option object => convert_one cs <$> o) <$> deselect_all l = deselect_all l.
Proof.
  unfold deselect_all. rewrite <- list_fmap_compose.
  apply list_fmap_ext. by intros _ [o|] _.
Qed.

Lemma editable_from_app i a t l1 l2 :
  editable_from i a t (l1 ++ l2) =
  editable_from i a t l1 ++ editable_from (i + length l1) a t l2.
Proof.
  revert i. induction l1 as [|[o|] l1 IH]; intros i; simpl.
  - by rewrite Nat.add_0_r.
  - rewrite IH, Nat.add_succ_r. simpl. by destruct (_ || _).
  - by rewrite IH, Nat.add_succ_r.
Qed.

Lemma editable_from_deselect_all i a t l :
  (i + length l <= a)%nat -> editable_from i a t (deselect_all l) = [].
Proof.
  revert i. induction l as [|[o|] l IH]; intros i Hi; simpl in *; [done| |].
  - rewrite bool_decide_eq_false_2 by lia. simpl. apply IH. lia.
  - apply IH. lia.
Qed.

Lemma extrude_from_app i hs v l1 l2 :
  extrude_from i hs v (l1 ++ l2) =
  extrude_from i hs v l1 ++ extrude_from (i + length l1) hs v l2.
Proof.
  revert i. induction l1 as [|o l1 IH]; intros i; simpl.
  - by rewrite Nat.add_0_r.
  - by rewrite IH, Nat.add_succ_r.
Qed.

Lemma extrude_from_outside i hs v l :
  Forall (fun h => i + length l <= h)%nat hs -> extrude_from i hs v l = l.
Proof.
  revert i. induction l as [|o l IH]; intros i Hi; simpl in *; [done|].
  rewrite decide_False.
  - f_equal. apply IH. eapply Forall_impl; [exact Hi|]. simpl. lia.
  - intros Hin. rewrite Forall_forall in Hi. specialize (Hi _ Hin). lia.
Qed.
Lemma lookup_pair_0 {A} (l : list A) a b n :
  n = length l -> (l ++ [a; b]) !! n = Some a.
Proof. intros ->. by apply list_lookup_middle. Qed.

Lemma lookup_pair_1 {A} (l : list A) a b n :
  n = S (length l) -> (l ++ [a; b]) !! n = Some b.
Proof.
  intros ->. change (l ++ [a; b]) with (l ++ [a] ++ [b]).
  rewrite app_assoc. apply list_lookup_middle. rewrite length_app. simpl. lia.
Qed.

Lemma insert_pair_0 {A} (l : list A) a b c n :
  n = length l -> <[n := c]> (l ++ [a; b]) = l ++ [c; b].
Proof. intros ->. rewrite insert_app_r_alt by lia. by rewrite Nat.sub_diag. Qed.

Lemma insert_pair_1 {A} (l : list A) a b c n :
  n = S (length l) -> <[n := c]> (l ++ [a; b]) = l ++ [a; c].
Proof.
  intros ->. rewrite insert_app_r_alt by lia.
  replace (S (length l) - length l)%nat with 1%nat by lia. done.
Qed.

Lemma find_object_pair_0 nm l a b n :
  nm ∉ object_names l -> name a = nm -> n = length l ->
  find_object nm (l ++ [Some a; b]) = Some (n, Some a).
Proof.
  intros. change (l ++ [Some a; b]) with (l ++ [Some a] ++ [b]).
  rewrite app_assoc. apply list_find_app_l. by apply find_object_snoc.
Qed.

Lemma find_object_pair_1 nm l a b n :
  nm ∉ object_names (l ++ [Some a]) -> name b = nm -> n = S (length l) ->
  find_object nm (l ++ [Some a; Some b]) = Some (n, Some b).
Proof.
  intros. change (l ++ [Some a; Some b]) with (l ++ [Some a] ++ [Some b]).
  rewrite app_assoc. apply find_object_snoc; [done..|].
  rewrite length_app. simpl. lia.
Qed.

Lemma editable_from_pair n t a b :
  select b = true -> type b = t ->
  editable_from n n t [Some a; Some b] = [n; S n].
Proof.
  intros Hs Ht. simpl. rewrite bool_decide_eq_true_2 by done. simpl.
  rewrite Hs, Ht. rewrite (bool_decide_eq_true_2 (t = t)) by done.
  by rewrite orb_true_r.
Qed.

Lemma extrude_from_pair n v a b :
  extrude_from n [n; S n] v [Some a; Some b] =
  [Some (with_mesh MESH (Extruded (data a) v) a);
   Some (with_mesh MESH (Extruded (data b) v) b)].
Proof.
  simpl. rewrite decide_True by (rewrite list_elem_of_In; simpl; auto).
  rewrite decide_True by (rewrite list_elem_of_In; simpl; auto). done.
Qed.

Ltac upd0 :=
  unfold update_object at 1, get_object at 1; msimpl;
  rewrite lookup_pair_0 by pos; simpl mjoin; msimpl;
  rewrite insert_pair_0 by pos.
Ltac upd1 :=
  unfold update_object at 1, get_object at 1; msimpl;
  rewrite lookup_pair_1 by pos; simpl mjoin; msimpl;
  rewrite insert_pair_1 by pos.

Lemma draw_object_spec fmt x y z mat label texmat w :
  wf w ->
  draw_object fmt x y z mat label texmat w = (Ok tt, composed fmt x y z mat label texmat w).
Proof.
  intros (Hmode & Hscene & Hkids).
  unfold draw_object. msimpl.
  unfold primitive_cylinder_add. msimpl.
  unfold in_object_mode at 1. wsimpl. rewrite Hmode. msimpl.
  step operator_add_ok. msimpl.
  unfold data_materials_append at 1, update_object at 1, get_object at 1. msimpl.
  rewrite lookup_snoc by pos. simpl mjoin. msimpl.
  rewrite insert_snoc by pos.
  unfold set_name, update_object at 1, get_object at 1. msimpl.
  rewrite !insert_snoc by pos. rewrite lookup_snoc by pos. simpl mjoin. msimpl.
  rewrite object_names_app, object_names_deselect_all. simpl (object_names [None]).
  rewrite app_nil_r. rewrite insert_snoc by pos.
  fold (marker_name fmt x y z w).
  unfold new_text. msimpl.
  unfold curves_new, set_body. msimpl. rewrite insert_insert_eq.
  fold (curve_name fmt x y z w).
  unfold objects_new, add_object. msimpl.
  rewrite object_names_app, object_names_deselect_all.
  simpl (object_names [Some _]).
  fold (label_name fmt x y z w).
  rewrite length_app, length_deselect_all. simpl length. rewrite Nat.add_1_r.
  rewrite <- app_assoc. simpl app.
  unfold scene_objects_link. msimpl.
  rewrite decide_False.
  2:{ destruct (_ ≫= _); rewrite ?elem_of_app, ?list_elem_of_singleton;
      rewrite Forall_forall in Hscene; intros H;
      [|destruct H as [H|H]; [|lia]]; apply Hscene in H; lia. }
  msimpl.
  upd1. unfold data_materials_append at 1. upd1.
  unfold get_object at 1. msimpl. rewrite lookup_pair_1 by pos. simpl mjoin. msimpl.
  unfold objects_getitem at 1. msimpl.
  rewrite (find_object_pair_1 _ _ _ _ (S (length (objects w)))).
  2:{ rewrite object_names_app, object_names_deselect_all. apply unique_name_fresh. }
  2:{ reflexivity. }
  2:{ by rewrite length_deselect_all. }
  simpl fmap. msimpl.
  unfold select_set at 1. upd1.
  unfold object_convert_mesh. msimpl.
  unfold get_object at 1. msimpl. rewrite lookup_pair_0 by pos. simpl mjoin. msimpl.
  unfold map_objects. msimpl.
  rewrite fmap_app, convert_deselect_all.
  simpl fmap. unfold convert_one. wsimpl. rewrite lookup_insert_eq. simpl default.
  unfold select_set at 1. upd0.
  unfold mode_set_edit. msimpl.
  unfold get_object at 1. msimpl. rewrite lookup_pair_0 by pos. simpl mjoin. msimpl.
  rewrite editable_from_app, editable_from_deselect_all by pos.
  rewrite Nat.add_0_l, length_deselect_all, editable_from_pair by done.
  unfold mesh_select_all, editing_mesh. msimpl. cbn [mbind option_bind].
  rewrite lookup_pair_0 by pos. simpl. msimpl.
  unfold extrude_region_move, editing_mesh. msimpl. cbn [mbind option_bind].
  rewrite lookup_pair_0 by pos. simpl. msimpl.
  rewrite extrude_from_app, extrude_from_outside.
  2:{ repeat constructor; pos. }
  rewrite Nat.add_0_l, length_deselect_all, extrude_from_pair. wsimpl.
  unfold mode_set_object. msimpl.
  unfold select_all at 1. msimpl. unfold map_objects. msimpl.
  rewrite fmap_app. fold (deselect_all (deselect_all (objects w))).
  rewrite deselect_all_idem. simpl fmap. wsimpl.
  unfold get_object at 1. msimpl. rewrite lookup_pair_0 by pos. simpl mjoin. msimpl.
  unfold objects_getitem at 1. msimpl.
  rewrite (find_object_pair_0 _ _ _ _ (length (objects w))).
  2:{ rewrite object_names_deselect_all. apply unique_name_fresh. }
  2:{ reflexivity. }
  2:{ by rewrite length_deselect_all. }
  simpl fmap. msimpl.
  unfold get_object at 1. msimpl. rewrite lookup_pair_1 by pos. simpl mjoin. msimpl.
  unfold objects_getitem at 1. msimpl.
  rewrite (find_object_pair_1 _ _ _ _ (S (length (objects w)))).
  2:{ rewrite object_names_app, object_names_deselect_all. apply unique_name_fresh. }
  2:{ reflexivity. }
  2:{ by rewrite length_deselect_all. }
  simpl fmap. msimpl.
  unfold select_set at 1. upd0. unfold select_set at 1. upd1.
  upd1. upd1.
  unfold collections_new. msimpl.
  set (cs := match active_collection w ≫= _ with
             | Some (c, coll) => <[c := _]> (collections w)
             | None => collections w
             end).
  set (gk := fresh_string (label +:+ "_led") cs).
  assert (Hfresh : cs !! gk = None) by apply fresh_string_fresh.
  assert (Hgrow : forall c, is_Some (collections w !! c) -> is_Some (cs !! c)).
  { intros c Hc. subst cs. destruct (_ ≫= _) as [[c' coll]|]; [|done].
    destruct (decide (c' = c)) as [->|Hne].
    - rewrite lookup_insert_eq. eauto.
    - by rewrite lookup_insert_ne. }
  unfold scene_children_link. msimpl.
  rewrite decide_False.
  2:{ intros Hin. rewrite Forall_forall in Hkids.
      apply Hkids, Hgrow in Hin. rewrite Hfresh in Hin. by destruct Hin. }
  msimpl.
  unfold collection_objects_link at 1. msimpl. rewrite lookup_insert_eq. msimpl.
  rewrite decide_False by (by intros ?%elem_of_nil). msimpl.
  rewrite insert_insert_eq.
  unfold collection_objects_link at 1. msimpl. rewrite lookup_insert_eq. msimpl.
  rewrite decide_False by (rewrite list_elem_of_In; simpl; lia). msimpl.
  rewrite insert_insert_eq.
  unfold select_all at 1. msimpl. unfold map_objects. msimpl.
  rewrite fmap_app. fold (deselect_all (deselect_all (objects w))).
  rewrite deselect_all_idem. simpl fmap. wsimpl.
  rewrite <- (app_assoc (trace w)).
  reflexivity.
Qed.

(** ** Well-formed host states are kept *)

Lemma wf_with_graph id t w : wf w -> wf (with_graph id t w).
Proof. intros H. exact H. Qed.

Lemma wf_composed fmt x y z mat label texmat w :
  wf w -> wf (composed fmt x y z mat label texmat w).
Proof.
  intros (Hmode & Hscene & Hkids). unfold wf, composed, marker_ref, label_ref, group_name.
  wsimpl. split_and!.
  - done.
  - rewrite length_app, length_deselect_all. simpl.
    apply Forall_app. split.
    + destruct (_ ≫= _); [|apply Forall_app; split].
      * eapply Forall_impl; [exact Hscene|]. simpl. lia.
      * eapply Forall_impl; [exact Hscene|]. simpl. lia.
      * repeat constructor. lia.
    + repeat constructor. lia.
  - apply Forall_app. split.
    + eapply Forall_impl; [exact Hkids|]. simpl. intros c Hc.
      match goal with |- is_Some (<[?k := _]> _ !! _) => destruct (decide (k = c)) as [->|Hne] end.
      * rewrite lookup_insert_eq. eauto.
      * rewrite lookup_insert_ne by done.
        destruct (_ ≫= _) as [[c' coll]|]; [|done].
        destruct (decide (c' = c)) as [->|Hne'].
        -- rewrite lookup_insert_eq. eauto.
        -- by rewrite lookup_insert_ne.
    + repeat constructor. rewrite lookup_insert_eq. eauto.
Qed.

Lemma wf_after_toggle p w : wf w -> wf (after_toggle p w).
Proof. intros H. exact H. Qed.

(** ** One turn of the driver's loop, and the whole loop *)

Lemma compose_entry_spec fmt entry w :
  wf w -> compose_entry fmt entry w = (Ok tt, entry_world fmt entry w).
Proof.
  intros Hwf. destruct entry as [state [[x y] z]]. unfold compose_entry.
  change (format_ints "LEDShader_" 255 255 255) with led_shader.
  change (format_ints "TextShader_" 0 0 0) with text_shader.
  cbv zeta.
  erewrite bind_ok by apply new_shader_emissive.
  erewrite bind_ok by apply new_shader_diffuse.
  apply draw_object_spec. by do 2 apply wf_with_graph.
Qed.

Lemma wf_entry_world fmt entry w : wf w -> wf (entry_world fmt entry w).
Proof.
  intros H. destruct entry as [state [[x y] z]]. simpl.
  by apply wf_composed, wf_with_graph, wf_with_graph.
Qed.

Lemma for_each_compose fmt entries w :
  wf w -> for_each entries (compose_entry fmt) w = (Ok tt, loop_world fmt entries w).
Proof.
  revert w. induction entries as [|e entries IH]; intros w Hwf; simpl.
  - done.
  - erewrite bind_ok by (by apply compose_entry_spec).
    apply IH. by apply wf_entry_world.
Qed.
(** ** What a computation leaves alone *)

Lemma keeps_bind {X} (f : world -> X) {A B} (c : M A) (k : A -> M B) :
  keeps f c -> (forall a, keeps f (k a)) -> keeps f (bind c k).
Proof.
  intros Hc Hk w. unfold bind. specialize (Hc w).
  destruct (c w) as [[a|e] w1]; simpl in *; [|done].
  by rewrite Hk.
Qed.

Lemma keeps_pure {X} (f : world -> X) {A} (c : M A) :
  (forall w, f (c w).2 = f w) -> keeps f c.
Proof. done. Qed.

Lemma keeps_for_each {X} (f : world -> X) {A} (l : list A) body :
  (forall a, keeps f (body a)) -> keeps f (for_each l body).
Proof.
  intros H. induction l as [|a l IH]; simpl; [done|].
  apply keeps_bind; auto.
Qed.

Ltac keeps_step :=
  first
    [ apply keeps_bind; [|intros]
    | apply keeps_for_each; intros
    | apply keeps_pure; intros; reflexivity
    | apply keeps_pure; intros; unfold modify; wsimpl; repeat case_match; reflexivity
    | match goal with
      | |- keeps _ (match ?x with _ => _ end) => destruct x
      | |- keeps _ (unwrap _ ?x) => destruct x
      | |- keeps _ (poll ?x) => destruct x
      | |- keeps _ (let '(_, _) := ?x in _) => destruct x
      end ].

Ltac keeps_tac := repeat keeps_step.
(** * The specification, statement by statement *)

(** ** Shader-Graph Factory *)

Lemma shader_call_graph id (q : request) w :
  valid_request q ->
  exists t,
    (let '(kind, (r, g, b), intensity) := q in new_shader id kind r g b intensity) w
    = (Ok id, with_graph id t w) /\
    count_nodes is_output t = 1%nat /\ count_nodes is_shader t = 1%nat /\
    length (nodes t) = 2%nat /\ length (links t) = 1%nat.
Proof.
  destruct q as [[kind [[r g] b]] intensity]. intros [[-> [q ->]] | ->].
  - exists (emission_tree r g b q). by rewrite new_shader_emissive.
  - exists (diffuse_tree r g b). by rewrite new_shader_diffuse.
Qed.

(** C7.  Whatever valid requests are sent to the factory under one key, and
    however many (at least one), the calls all return and the graph under the
    key ends with exactly one output node and exactly one shader node, wired
    by one link: a repeated call rebuilds the graph, it does not add to it. *)
Theorem shader_graph_shape_is_idempotent id (qs : list request) w :
  qs <> [] -> Forall valid_request qs ->
  exists w' t,
    shader_calls id qs w = (Ok tt, w') /\
    materials w' !! id = Some (Material true (Some t)) /\
    count_nodes is_output t = 1%nat /\ count_nodes is_shader t = 1%nat /\
    length (nodes t) = 2%nat /\ length (links t) = 1%nat.
Proof.
  intros Hne Hall. revert w.
  induction Hall as [|q qs Hq Hall IH]; [done|]. intros w.
  destruct (shader_call_graph id q w Hq) as (t & Hrun & Hshape).
  unfold shader_calls in *. destruct q as [[kind [[r g] b]] intensity].
  cbn [for_each].
  rewrite bind_assoc. erewrite bind_ok by exact Hrun. rewrite bind_ret.
  destruct qs as [|q' qs'].
  - exists (with_graph id t w), t. split; [done|]. split; [|done].
    unfold with_graph. wsimpl. by rewrite lookup_insert_eq.
  - apply IH. done.
Qed.

Lemma shader_graph_shape_is_idempotent_witness :
  exists w' t,
    shader_calls "LEDShader_255_255_255"
      [("emissive", (1, 1, 1), Some 1); ("diffuse", (0, 0, 0), None);
       ("emissive", (1, 0, 0), Some 2)] startup = (Ok tt, w') /\
    materials w' !! "LEDShader_255_255_255" = Some (Material true (Some t)) /\
    count_nodes is_output t = 1%nat /\ count_nodes is_shader t = 1%nat /\
    length (nodes t) = 2%nat /\ length (links t) = 1%nat.
Proof.
  apply shader_graph_shape_is_idempotent.
  - discriminate.
  - constructor. { hnf. left. split; [reflexivity | by eexists]. }
    constructor. { hnf. right. reflexivity. }
    constructor. { hnf. left. split; [reflexivity | by eexists]. }
    constructor.
Defined.

(** C2, as the code has it.  For every key, colour and kind other than
    "emissive" and "diffuse" the factory raises TypeError; when it does, the
    material under the key exists with node shading switched on and a graph
    rebuilt to a single unlinked output node, and nothing else in the scene
    has changed. *)
Theorem new_shader_unsupported_kind id kind r g b intensity w :
  kind <> "emissive" -> kind <> "diffuse" ->
  exists w',
    new_shader id kind r g b intensity w = (Raise TypeError, w') /\
    materials w' = <[id := Material true (Some (NodeTree [output_node] []))]> (materials w) /\
    (objects w', collections w', scene_objects w', scene_children w', curves w', images w')
    = (objects w, collections w, scene_objects w, scene_children w, curves w, images w).
Proof.
  intros He Hd. eexists. split; [by apply new_shader_unsupported|]. done.
Qed.

Lemma new_shader_unsupported_kind_witness :
  exists w',
    new_shader "K" "specular" 1 1 1 None empty_world = (Raise TypeError, w') /\
    materials w' = <[ "K" := Material true (Some (NodeTree [output_node] []))]> (materials empty_world) /\
    (objects w', collections w', scene_objects w', scene_children w', curves w', images w')
    = (objects empty_world, collections empty_world, scene_objects empty_world,
       scene_children empty_world, curves empty_world, images empty_world).
Proof.
  apply new_shader_unsupported_kind; discriminate.
Defined.

(** C2 as stated fails: after the aborted call with kind "specular" the
    material store is not what it was; the key now holds a material whose graph
    has an output node and no shader. *)
Lemma new_shader_unsupported_kind_leaves_graph :
  let result := new_shader "K" "specular" 1 1 1 None empty_world in
  result.1 = Raise TypeError /\
  materials empty_world !! "K" = None /\
  materials result.2 !! "K" = Some (Material true (Some (NodeTree [output_node] []))) /\
  materials result.2 <> materials empty_world.
Proof.
  cbv zeta. rewrite new_shader_unsupported by discriminate.
  unfold with_graph. wsimpl. rewrite lookup_insert_eq.
  split_and!; try done.
Qed.

(** ** Base Surface Loader *)


(** After the toggle the loader emits nothing more and leaves the add-ons alone. *)
Lemma load_us_map_after_toggle D p w :
  trace (load_us_map D p w).2 = trace (after_toggle p w) /\
  addons (load_us_map D p w).2 = addons (after_toggle p w).
Proof.
  unfold load_us_map. rewrite load_toggle.
  generalize (bool_decide (is_Some (files w !! p))).
  generalize (after_toggle p w). clear w. intros w1 found.
  assert (Hk : forall (c : M unit),
             keeps (fun w => (trace w, addons w)) c ->
             trace (c w1).2 = trace w1 /\ addons (c w1).2 = addons w1).
  { intros c Hc. specialize (Hc w1). by inversion Hc. }
  apply Hk. clear Hk w1.
  destruct found; autounfold with script; keeps_tac.
Qed.

(** C9.  Whatever the path, the loader first checks the image-import add-on
    and enables it if it is not loaded, and only then looks whether the path
    exists; the add-on is enabled when the call ends, so a call on a path that
    does not exist still changes the host's plug-in state when the add-on was
    off. *)
Theorem load_us_map_toggles_addon_first D p w :
  let w' := (load_us_map D p w).2 in
  trace w' =
    trace w ++ [Call BaseSurfaceLoader; AddonCheck addon_name] ++
    (if bool_decide (addon_name ∈ addons w) then [] else [AddonEnable addon_name]) ++
    [PathExists p] /\
  addon_name ∈ addons w' /\
  (addon_name ∉ addons w -> addons w' = {[addon_name]} ∪ addons w /\ addons w' <> addons w).
Proof.
  cbv zeta. destruct (load_us_map_after_toggle D p w) as [-> ->].
  unfold after_toggle. wsimpl. split; [done|]. split.
  - destruct (bool_decide (addon_name ∈ addons w)) eqn:E.
    + by apply bool_decide_eq_true in E.
    + set_solver.
  - intros Hn. rewrite bool_decide_eq_false_2 by done. split; [done|].
    intros Heq. apply Hn. rewrite <- Heq.
    apply elem_of_union. left. by apply elem_of_singleton.
Qed.



(** The end-to-end scenario of the specification: a 2000 by 1000 image and
    [max_size_dim = 90] give a surface of 90 by 45, and here nothing is
    rounded. *)
Example surface_90_45 :
  90 * (float_of_Z 1000 / float_of_Z 2000) = 45 /\
  exactly_scaled 45 90 1000 2000 = true.
Proof. split; reflexivity. Qed.


Lemma selected_with_surface D p size w :
  selected_objects (with_surface D p size w) = [length (objects w)].
Proof.
  unfold selected_objects, with_surface. wsimpl.
  rewrite selected_from_app, selected_from_deselect_all, length_deselect_all. done.
Qed.

(** C4 fails on the loader.  Run on the factory scene with the map image on
    disk, the Base Surface Loader returns with the plane it imported still
    selected (and active): it never deselects, unlike the composer, whose last
    statement does. *)
Theorem load_us_map_leaves_plane_selected :
  let w' := (load_us_map 90 "res/png/us_map.png" startup_with_map).2 in
  (load_us_map 90 "res/png/us_map.png" startup_with_map).1 = Ok tt /\
  selected_objects w' = [3%nat] /\
  active_object w' = Some 3%nat /\
  (exists plane, objects w' !! 3%nat = Some (Some plane) /\
                 data plane = ImagePlane "us_map.png" /\ select plane = true).
Proof.
  cbv zeta. rewrite (load_us_map_existing 90 _ (2000, 1000)%Z) by done.
  split; [done|]. split; [apply selected_with_surface|]. split; [done|].
  eexists. split; [|split]; reflexivity.
Qed.

(** The composer, for comparison, leaves nothing selected. *)
Lemma draw_object_leaves_nothing_selected fmt x y z mat label texmat w :
  wf w -> selected_objects (draw_object fmt x y z mat label texmat w).2 = [].
Proof.
  intros Hwf. rewrite draw_object_spec by done.
  unfold selected_objects, composed. wsimpl.
  by rewrite selected_from_app, selected_from_deselect_all.
Qed.

(** Scene Reset, too, leaves nothing selected: what was selected it deleted. *)
Lemma selected_from_deleted i l :
  selected_from i
    ((fun o : option object => o ≫= fun ob : object => if select ob then None else Some ob) <$>
     l) = [].
Proof.
  revert i. induction l as [|[o|] l IH]; intros i; simpl; auto.
  destruct (select o) eqn:E; simpl; [auto|]. rewrite E. auto.
Qed.

Lemma init_blender_env_leaves_nothing_selected w :
  mode w = OBJECT -> selected_objects (init_blender_env w).2 = [].
Proof.
  intros Hmode. unfold init_blender_env, select_all, object_delete, select_visible.
  msimpl. unfold in_object_mode. wsimpl. rewrite Hmode. msimpl.
  match goal with |- context [ for_each ?l collections_remove ?w1 ] =>
    change (selected_objects (for_each l collections_remove w1).2 = []);
    transitivity (selected_objects w1);
      [ apply (keeps_for_each selected_objects); intros c;
        unfold collections_remove; keeps_tac | ]
  end.
  apply selected_from_deleted.
Qed.

Lemma trace_entry_world fmt entry w :
  trace (entry_world fmt entry w) = trace w ++ turn_events.
Proof.
  destruct entry as [state [[x y] z]].
  unfold entry_world, composed, with_graph, turn_events. wsimpl.
  by rewrite <- !app_assoc.
Qed.

Lemma trace_loop_world fmt entries w :
  trace (loop_world fmt entries w) =
  trace w ++ concat ((fun _ => turn_events) <$> entries).
Proof.
  revert w. induction entries as [|e entries IH]; intros w.
  - simpl. by rewrite app_nil_r.
  - change (loop_world fmt (e :: entries) w)
      with (loop_world fmt entries (entry_world fmt e w)).
    rewrite IH, trace_entry_world, fmap_cons. simpl concat.
    by rewrite <- app_assoc.
Qed.

(** C6.  When the path names nothing that exists, the loader returns
    normally, its only output is the line "File not found: <path>", and the
    scene is exactly what it was.  The driver then goes on: from a well-formed
    host state it finishes without an exception, and every entry of the
    dataset gets its two factory calls and its marker composition. *)
Theorem missing_image_is_not_fatal fmt (D : float) (p : string) (w : world) :
  files w !! p = None ->
  exists w1,
    load_us_map D p w = (Ok tt, w1) /\
    stdout w1 = stdout w ++ ["File not found: " +:+ p] /\
    scene w1 = scene w /\
    forall filename entries,
      image_path filename = p -> wf w ->
      exists w2,
        run_driver fmt filename entries w = (Ok tt, w2) /\
        trace w2 = trace w1 ++ concat ((fun _ => turn_events) <$> entries).
Proof.
  intros Hf.
  exists (set_stdout (stdout w ++ ["File not found: " +:+ p]) (after_toggle p w)).
  split; [by apply load_us_map_missing|]. split; [done|]. split; [done|].
  intros filename entries <- Hwf.
  eexists. split.
  - unfold run_driver. erewrite bind_ok by (by apply load_us_map_missing).
    apply for_each_compose. exact Hwf.
  - apply trace_loop_world.
Qed.

Lemma wf_startup : wf startup.
Proof.
  split_and!; [reflexivity | constructor |].
  repeat constructor. vm_compute. eauto.
Defined.

Lemma missing_image_is_not_fatal_witness :
  exists w1,
    load_us_map 90 "res/png" startup = (Ok tt, w1) /\
    stdout w1 = stdout startup ++ ["File not found: " +:+ "res/png"] /\
    scene w1 = scene startup /\
    forall filename entries,
      image_path filename = "res/png" -> wf startup ->
      exists w2,
        run_driver decimal filename entries startup = (Ok tt, w2) /\
        trace w2 = trace w1 ++ concat ((fun _ => turn_events) <$> entries).
Proof.
  apply (missing_image_is_not_fatal decimal 90 "res/png" startup).
  reflexivity.
Defined.

(** ** Run Driver *)

(** C1 fails on the driver.  From any host state, with any file name and any
    dataset, the first thing the driver does is enter the Base Surface Loader,
    and nothing it does afterwards, whatever the outcome, enters Scene Reset:
    [init_blender_env] is defined and never called. *)
Theorem run_driver_never_resets fmt filename entries w :
  exists evs,
    trace (run_driver fmt filename entries w).2 = trace w ++ Call BaseSurfaceLoader :: evs /\
    Forall (fun e => e <> Call SceneReset) evs.
Proof.
  unfold run_driver, load_us_map. rewrite !bind_assoc.
  match goal with |- context [ bind (emit _) ?k w ] =>
    assert (Hk : emits (fun e => e <> Call SceneReset) (k tt))
  end.
  { cbv beta. autounfold with script. emits_tac. }
  rewrite bind_emit.
  destruct (Hk (set_trace (trace w ++ [Call BaseSurfaceLoader]) w)) as (evs & Htr & Hall).
  exists evs. split; [|done].
  rewrite Htr. wsimpl. by rewrite <- app_assoc.
Qed.

(** Scene Reset, when it is called, is seen in the trace. *)
Example init_blender_env_is_traced :
  trace (init_blender_env startup).2 = [Call SceneReset].
Proof. reflexivity. Qed.

(** ** Marker Composer *)

Lemma fresh_string_free {A} (s : string) (m : stringmap A) :
  m !! s = None -> fresh_string s m = s.
Proof. intros H. unfold fresh_string. by rewrite H. Qed.

Lemma link_active_grows h w c :
  is_Some (collections w !! c) -> is_Some (collections (link_active h w) !! c).
Proof.
  intros Hc. unfold link_active. wsimpl.
  destruct (_ ≫= _) as [[c' coll]|]; [|done].
  destruct (decide (c' = c)) as [->|Hne].
  - rewrite lookup_insert_eq. eauto.
  - by rewrite lookup_insert_ne.
Qed.

Lemma link_active_target h w :
  match target_collection w with
  | Some c =>
      exists coll, collections w !! c = Some coll /\
        collections (link_active h w) = <[c := Collection (coll_objects coll ++ [h])]> (collections w) /\
        scene_objects (link_active h w) = scene_objects w
  | None =>
      collections (link_active h w) = collections w /\
      scene_objects (link_active h w) = scene_objects w ++ [h]
  end.
Proof.
  unfold target_collection, link_active.
  destruct (active_collection w) as [c|]; cbn [mbind option_bind].
  2:{ split; reflexivity. }
  destruct (collections w !! c) as [coll|] eqn:E;
    cbn [mbind option_bind fmap option_fmap option_map].
  2:{ split; reflexivity. }
  exists coll. split; [exact E|]. wsimpl. rewrite ?E. split; reflexivity.
Qed.

Lemma dom_link_active h w :
  dom (collections (link_active h w)) = dom (collections w).
Proof.
  pose proof (link_active_target h w) as H.
  destruct (target_collection w) as [c|].
  - destruct H as (coll & Hc & -> & _). rewrite dom_insert_L.
    apply (elem_of_dom_2 (D:=gset string)) in Hc.
    apply set_eq. intros k. rewrite elem_of_union, elem_of_singleton.
    split; [intros [->|]; done | auto].
  - by destruct H as [-> _].
Qed.

Lemma group_name_is_new label w :
  collections w !! group_name label w = None.
Proof.
  unfold group_name, marker_ref.
  destruct (collections w !! _) as [coll|] eqn:E; [|done].
  assert (Hs : is_Some (collections (link_active (length (objects w)) w) !!
                 fresh_string (label +:+ "_led")
                   (collections (link_active (length (objects w)) w)))).
  { apply link_active_grows. eauto. }
  rewrite fresh_string_fresh in Hs. by destruct Hs.
Qed.

Lemma group_name_free label w :
  collections w !! (label +:+ "_led") = None -> group_name label w = label +:+ "_led".
Proof.
  intros H. unfold group_name. apply fresh_string_free.
  apply (not_elem_of_dom (D:=gset string)). rewrite dom_link_active.
  by apply not_elem_of_dom.
Qed.

(** C8.  From a well-formed host state where no collection is called
    [label + "_led"], one composition returns, and then: the collections are
    the old ones plus exactly one, named [label + "_led"], which is a child of
    the scene's root; it holds exactly two objects, both new, in this order:
    the cylinder marker at [(x, y, z)] and the extruded text mesh of [label]. *)
Theorem draw_object_makes_one_group fmt x y z mat label texmat w :
  wf w -> collections w !! (label +:+ "_led") = None ->
  exists w' marker text,
    draw_object fmt x y z mat label texmat w = (Ok tt, w') /\
    dom (collections w') = {[label +:+ "_led"]} ∪ dom (collections w) /\
    ((label +:+ "_led") ∉ dom (collections w)) /\
    scene_children w' = scene_children w ++ [label +:+ "_led"] /\
    collections w' !! (label +:+ "_led")
      = Some (Collection [length (objects w); S (length (objects w))]) /\
    length (objects w') = S (S (length (objects w))) /\
    objects w' !! length (objects w) = Some (Some marker) /\
    objects w' !! S (length (objects w)) = Some (Some text) /\
    (type marker, data marker, data_materials marker, location marker)
      = (MESH, Extruded (Cylinder 0.5 0.5) (0, 0, 0.3), [mat], (x, y, z)) /\
    (type text, data text, data_materials text)
      = (MESH, Extruded (Glyphs label) (0, 0, 0.3), [texmat]).
Proof.
  intros Hwf Hfree.
  exists (composed fmt x y z mat label texmat w),
         (marker_object fmt x y z mat w), (label_object fmt x y z label texmat w).
  split; [by apply draw_object_spec|].
  unfold composed. rewrite group_name_free by done.
  cbn [collections set_collections scene_children set_scene_children set_scene_objects
       set_curves set_objects objects].
  split. { by rewrite dom_insert_L, dom_link_active. }
  split. { by apply not_elem_of_dom. }
  split; [done|].
  split. { by rewrite lookup_insert_eq. }
  split. { rewrite length_app, length_deselect_all. simpl. lia. }
  split. { apply lookup_pair_0. by rewrite length_deselect_all. }
  split. { apply lookup_pair_1. by rewrite length_deselect_all. }
  done.
Qed.

Lemma draw_object_makes_one_group_witness :
  exists w' marker text,
    draw_object decimal 14.0 (-1.0) 0.0 led_shader "AL" text_shader startup = (Ok tt, w') /\
    dom (collections w') = {["AL" +:+ "_led"]} ∪ dom (collections startup) /\
    (("AL" +:+ "_led") ∉ dom (collections startup)) /\
    scene_children w' = scene_children startup ++ ["AL" +:+ "_led"] /\
    collections w' !! ("AL" +:+ "_led")
      = Some (Collection [length (objects startup); S (length (objects startup))]) /\
    length (objects w') = S (S (length (objects startup))) /\
    objects w' !! length (objects startup) = Some (Some marker) /\
    objects w' !! S (length (objects startup)) = Some (Some text) /\
    (type marker, data marker, data_materials marker, location marker)
      = (MESH, Extruded (Cylinder 0.5 0.5) (0, 0, 0.3), [led_shader], (14.0, -1.0, 0.0)) /\
    (type text, data text, data_materials text)
      = (MESH, Extruded (Glyphs "AL") (0, 0, 0.3), [text_shader]).
Proof.
  apply draw_object_makes_one_group.
  - exact wf_startup.
  - reflexivity.
Defined.

(** Every composition from a well-formed host state extrudes the marker as
    well as the label: edit mode is entered on the active object, and that is
    still the cylinder. *)
Lemma draw_object_edits_the_active_marker fmt x y z mat label texmat w :
  wf w ->
  let w' := (draw_object fmt x y z mat label texmat w).2 in
  active_object w' = Some (length (objects w)) /\
  objects w' !! length (objects w) = Some (Some (marker_object fmt x y z mat w)) /\
  objects w' !! S (length (objects w)) = Some (Some (label_object fmt x y z label texmat w)).
Proof.
  intros Hwf. cbv zeta. rewrite draw_object_spec by done.
  unfold composed. wsimpl. split; [done|]. split.
  - apply lookup_pair_0. by rewrite length_deselect_all.
  - apply lookup_pair_1. by rewrite length_deselect_all.
Qed.

(** C3 fails on the composer.  For the first entry of the dataset on the
    factory scene, the object returned as label is the text turned into a mesh
    and extruded by 0.3, but the edit-mode sequence did not work on it alone: the
    object edit mode was entered on is the active one, the cylinder marker,
    and its geometry has been extruded by the same 0.3. *)
Theorem draw_object_extrudes_the_marker_too :
  let w' := (draw_object decimal 14.0 (-1.0) 0.0 led_shader "AL" text_shader startup).2 in
  (draw_object decimal 14.0 (-1.0) 0.0 led_shader "AL" text_shader startup).1 = Ok tt /\
  active_object w' = Some 3%nat /\
  (name <$> mjoin (objects w' !! 3%nat), data <$> mjoin (objects w' !! 3%nat))
    = (Some "LED_14.0_-1.0_0.0", Some (Extruded (Cylinder 0.5 0.5) (0, 0, 0.3))) /\
  (name <$> mjoin (objects w' !! 4%nat), data <$> mjoin (objects w' !! 4%nat))
    = (Some "Text_14.0_-1.0_0.0_font", Some (Extruded (Glyphs "AL") (0, 0, 0.3))).
Proof. by vm_compute. Qed.

Lemma collections_composed fmt x y z mat label texmat w :
  collections (composed fmt x y z mat label texmat w) =
  <[group_name label w := Collection [length (objects w); S (length (objects w))]]>
    (collections (link_active (length (objects w)) w)).
Proof. reflexivity. Qed.

Lemma scene_objects_composed fmt x y z mat label texmat w :
  scene_objects (composed fmt x y z mat label texmat w) =
  scene_objects (link_active (length (objects w)) w) ++ [S (length (objects w))].
Proof. reflexivity. Qed.

(** C10, as the code has it.  From a well-formed host state a composition
    returns and creates a group that did not exist; the label is linked to the
    scene's root collection, the marker to the collection the operator put it
    in (the active collection, or the root when there is none), which is not
    the new group; both are linked to the new group as well; and no link that
    existed before is gone. *)
Theorem draw_object_keeps_links fmt x y z mat label texmat w :
  wf w ->
  exists w' group,
    draw_object fmt x y z mat label texmat w = (Ok tt, w') /\
    collections w !! group = None /\
    target_collection w <> Some group /\
    linked_in (target_collection w) (length (objects w)) w' /\
    linked_in None (S (length (objects w))) w' /\
    linked_in (Some group) (length (objects w)) w' /\
    linked_in (Some group) (S (length (objects w))) w' /\
    (forall c h, c <> Some group -> linked_in c h w -> linked_in c h w').
Proof.
  intros Hwf.
  exists (composed fmt x y z mat label texmat w), (group_name label w).
  split; [by apply draw_object_spec|].
  pose proof (group_name_is_new label w) as Hnew.
  assert (Hne : target_collection w <> Some (group_name label w)).
  { unfold target_collection. intros E.
    destruct (active_collection w) as [c|]; simpl in E; [|done].
    destruct (collections w !! c) as [coll|] eqn:Ec; simpl in E; [|done].
    injection E as E. rewrite <- E in Hnew. by rewrite Hnew in Ec. }
  split; [done|]. split; [done|].
  pose proof (link_active_target (length (objects w)) w) as Ht.
  unfold linked_in.
  rewrite collections_composed, scene_objects_composed.
  destruct (target_collection w) as [c'|].
  - destruct Ht as (coll' & Hc' & HCS & HSO). rewrite HCS, HSO.
    split.
    { eexists. rewrite lookup_insert_ne by congruence.
      rewrite lookup_insert_eq. split; [reflexivity|].
      apply elem_of_app. right. by apply list_elem_of_singleton. }
    split. { apply elem_of_app. right. by apply list_elem_of_singleton. }
    split. { eexists. rewrite lookup_insert_eq. split; [reflexivity|]. by left. }
    split. { eexists. rewrite lookup_insert_eq. split; [reflexivity|]. right. by left. }
    intros [c|] h Hc.
    + intros (coll & Hcoll & Hin).
      rewrite lookup_insert_ne by congruence.
      destruct (decide (c' = c)) as [Hcc|Hcc].
      * subst c'. rewrite lookup_insert_eq. eexists. split; [reflexivity|].
        rewrite Hc' in Hcoll. injection Hcoll as Hcoll. subst coll'.
        apply elem_of_app. by left.
      * rewrite lookup_insert_ne by done. eauto.
    + intros Hin. apply elem_of_app. by left.
  - destruct Ht as [HCS HSO]. rewrite HCS, HSO.
    split. { apply elem_of_app. left. apply elem_of_app. right. by apply list_elem_of_singleton. }
    split. { apply elem_of_app. right. by apply list_elem_of_singleton. }
    split. { eexists. rewrite lookup_insert_eq. split; [reflexivity|]. by left. }
    split. { eexists. rewrite lookup_insert_eq. split; [reflexivity|]. right. by left. }
    intros [c|] h Hc.
    + intros (coll & Hcoll & Hin).
      rewrite lookup_insert_ne by congruence. eauto.
    + intros Hin. apply elem_of_app. left. apply elem_of_app. by left.
Qed.

Lemma draw_object_keeps_links_witness :
  exists w' group,
    draw_object decimal 14.0 (-1.0) 0.0 led_shader "AL" text_shader startup = (Ok tt, w') /\
    collections startup !! group = None /\
    target_collection startup <> Some group /\
    linked_in (target_collection startup) (length (objects startup)) w' /\
    linked_in None (S (length (objects startup))) w' /\
    linked_in (Some group) (length (objects startup)) w' /\
    linked_in (Some group) (S (length (objects startup))) w' /\
    (forall c h, c <> Some group -> linked_in c h startup -> linked_in c h w').
Proof.
  apply draw_object_keeps_links. exact wf_startup.
Defined.

(** C10 as stated fails.  On the factory scene the active collection is
    "Collection", so that is where the cylinder is put: after the composition
    the marker is in "Collection" and in "AL_led", and the scene's root
    collection holds the label only. *)
Lemma draw_object_marker_not_in_root :
  let w' := (draw_object decimal 14.0 (-1.0) 0.0 led_shader "AL" text_shader startup).2 in
  scene_objects w' = [4%nat] /\
  collections w' !! "Collection" = Some (Collection [0; 1; 2; 3]%nat) /\
  collections w' !! "AL_led" = Some (Collection [3; 4]%nat) /\
  ~ linked_in None 3%nat w'.
Proof.
  cbv zeta.
  assert (E : scene_objects
                (draw_object decimal 14.0 (-1.0) 0.0 led_shader "AL" text_shader startup).2
              = [4%nat]) by (by vm_compute).
  split; [exact E|]. split; [by vm_compute|]. split; [by vm_compute|].
  unfold linked_in. rewrite E. rewrite list_elem_of_singleton. discriminate.
Qed.

(** * More of the script *)

(** ** Shader-Graph Factory *)

Lemma set_default_value_refused key w m t nm i v j n s e :
  materials w !! key = Some m -> mat_tree m = Some t ->
  node_index nm t = Some (j, n) ->
  node_inputs n !! i = Some s ->
  assign_socket s v = Raise e ->
  set_default_value key nm i v w = (Raise e, w).
Proof.
  intros Hm Ht Hn Hs Ha. unfold set_default_value.
  erewrite bind_ok by (by eapply get_tree_ok).
  rewrite Hn. unfold unwrap at 1. erewrite bind_ok by reflexivity.
  cbv beta iota.
  rewrite Hs. unfold unwrap at 1. erewrite bind_ok by reflexivity.
  by rewrite Ha.
Qed.

Lemma new_shader_emissive_no_intensity id r g b w :
  new_shader id "emissive" r g b None w =
  (Raise TypeError, with_graph id (unlinked_emission_tree r g b) w).
Proof.
  unfold new_shader.
  erewrite bind_ok by reflexivity.
  step new_material_spec.
  step nodes_new_ok. rewrite unique_name_free by (rewrite list_elem_of_In; simpl; intuition discriminate).
  rewrite decide_True by done.
  erewrite bind_raise.
  2:{ step nodes_new_ok. rewrite unique_name_free by (rewrite list_elem_of_In; simpl; intuition discriminate).
      erewrite bind_ok.
      2:{ eapply set_default_value_ok; pre. }
      wsimpl.
      erewrite bind_raise.
      2:{ eapply set_default_value_refused; pre. }
      reflexivity. }
  unfold with_graph, unlinked_emission_tree, output_node. wsimpl.
  by rewrite !insert_insert_eq.
Qed.

(** X1.  An emissive request builds, under its key, a graph of an output node
    and an emission node whose colour is [(r, g, b, 1)] and whose strength is
    the intensity, the emission's first output wired to the output node's
    first input; the factory returns the key. *)
Theorem new_shader_emissive_graph id r g b q w :
  exists w',
    new_shader id "emissive" r g b (Some q) w = (Ok id, w') /\
    materials w' !! id =
      Some (Material true (Some (NodeTree
        [Node "Material Output" ShaderNodeOutputMaterial [SockLink; SockLink; SockLink];
         Node "Emission" ShaderNodeEmission [SockColor (r, g, b, 1); SockFloat q]]
        [Link "Emission" 0 "Material Output" 0]))).
Proof.
  eexists. split; [apply new_shader_emissive|].
  unfold with_graph. wsimpl. by rewrite lookup_insert_eq.
Qed.

(** X2.  A diffuse request builds an output node and a diffuse node whose
    colour is [(r, g, b, 1)], wired the same way; the intensity argument has no
    effect on what the call does. *)
Theorem new_shader_diffuse_graph id r g b intensity w :
  exists w',
    new_shader id "diffuse" r g b intensity w = (Ok id, w') /\
    new_shader id "diffuse" r g b None w = (Ok id, w') /\
    materials w' !! id =
      Some (Material true (Some (NodeTree
        [Node "Material Output" ShaderNodeOutputMaterial [SockLink; SockLink; SockLink];
         Node "Diffuse BSDF" ShaderNodeBsdfDiffuse
           [SockColor (r, g, b, 1); SockFloat 0; SockLink]]
        [Link "Diffuse BSDF" 0 "Material Output" 0]))).
Proof.
  eexists. split; [apply new_shader_diffuse|]. split; [apply new_shader_diffuse|].
  unfold with_graph. wsimpl. by rewrite lookup_insert_eq.
Qed.

(** X3.  An emissive request that leaves the intensity at its default [None]
    raises TypeError when the strength is assigned; by then the material holds
    the output node and the emission node with its colour set, and no link. *)
Theorem new_shader_emissive_needs_intensity id r g b w :
  exists w',
    new_shader id "emissive" r g b None w = (Raise TypeError, w') /\
    materials w' !! id =
      Some (Material true (Some (NodeTree
        [Node "Material Output" ShaderNodeOutputMaterial [SockLink; SockLink; SockLink];
         Node "Emission" ShaderNodeEmission [SockColor (r, g, b, 1); SockFloat 1]]
        []))).
Proof.
  eexists. split; [apply new_shader_emissive_no_intensity|].
  unfold with_graph. wsimpl. by rewrite lookup_insert_eq.
Qed.

Lemma new_shader_requested id (q : request) w :
  valid_request q ->
  (let '(kind, (r, g, b), intensity) := q in new_shader id kind r g b intensity) w
  = (Ok id, with_graph id (requested_tree q) w).
Proof.
  destruct q as [[kind [[r g] b]] intensity]. intros [[-> [q ->]] | ->].
  - unfold requested_tree. rewrite decide_True by done. apply new_shader_emissive.
  - unfold requested_tree. rewrite decide_False by done. apply new_shader_diffuse.
Qed.

(** Whatever the arguments, a factory call ends in one of four worlds. *)
Lemma new_shader_cases id kind r g b intensity w :
  exists t, (new_shader id kind r g b intensity w).2 = with_graph id t w.
Proof.
  destruct (decide (kind = "emissive")) as [->|He].
  - destruct intensity as [q|].
    + rewrite new_shader_emissive. eauto.
    + rewrite new_shader_emissive_no_intensity. eauto.
  - destruct (decide (kind = "diffuse")) as [->|Hd].
    + rewrite new_shader_diffuse. eauto.
    + rewrite new_shader_unsupported by done. eauto.
Qed.

(** X4.  Whatever the kind, colour and intensity, and whether the call
    returns or raises, the factory changes the material under its key only:
    every other material, and everything in the world that is not a material,
    is what it was. *)
Theorem new_shader_touches_one_material id kind r g b intensity w :
  let w' := (new_shader id kind r g b intensity w).2 in
  (forall k, k <> id -> materials w' !! k = materials w !! k) /\
  outside_materials w' = outside_materials w.
Proof.
  cbv zeta. destruct (new_shader_cases id kind r g b intensity w) as [t ->].
  split; [|done].
  intros k Hk. unfold with_graph. wsimpl. by rewrite lookup_insert_ne.
Qed.

(** X5.  The last request wins: after two valid requests under one key the
    material store is what the second request alone would have left, so a key
    reused with another colour or kind shows the latest appearance only. *)
Theorem new_shader_last_request_wins id (q1 q2 : request) w :
  valid_request q1 -> valid_request q2 ->
  exists w12 w2,
    shader_calls id [q1; q2] w = (Ok tt, w12) /\
    shader_calls id [q2] w = (Ok tt, w2) /\
    materials w12 = materials w2 /\
    materials w12 !! id = Some (Material true (Some (requested_tree q2))).
Proof.
  intros H1 H2.
  exists (with_graph id (requested_tree q2) (with_graph id (requested_tree q1) w)),
         (with_graph id (requested_tree q2) w).
  pose proof (new_shader_requested id q1 w H1) as E1.
  pose proof (new_shader_requested id q2 (with_graph id (requested_tree q1) w) H2) as E12.
  pose proof (new_shader_requested id q2 w H2) as E2.
  unfold shader_calls.
  destruct q1 as [[k1 [[r1 g1] b1]] i1], q2 as [[k2 [[r2 g2] b2]] i2].
  cbn [for_each].
  split.
  { rewrite bind_assoc. erewrite bind_ok by exact E1. rewrite bind_ret.
    rewrite bind_assoc. erewrite bind_ok by exact E12. by rewrite bind_ret. }
  split.
  { rewrite bind_assoc. erewrite bind_ok by exact E2. by rewrite bind_ret. }
  unfold with_graph. wsimpl. rewrite insert_insert_eq, lookup_insert_eq. done.
Qed.

Lemma new_shader_last_request_wins_witness :
  exists w12 w2,
    shader_calls "K" [("emissive", (1, 0, 0), Some 2); ("diffuse", (0, 0, 1), None)] startup
      = (Ok tt, w12) /\
    shader_calls "K" [("diffuse", (0, 0, 1), None)] startup = (Ok tt, w2) /\
    materials w12 = materials w2 /\
    materials w12 !! "K" =
      Some (Material true (Some (requested_tree ("diffuse", (0, 0, 1), None)))).
Proof.
  apply new_shader_last_request_wins.
  - hnf. left. split; [reflexivity | by eexists].
  - hnf. right. reflexivity.
Defined.

(** X6.  [new_material] gets or creates: it returns the key it was given;
    afterwards the material under the key has node shading on and an empty graph,
    whatever graph it held before; no other material is touched; and calling it
    again changes nothing more. *)
Theorem new_material_clears_the_graph id w :
  exists w',
    new_material id w = (Ok id, w') /\
    materials w' !! id = Some (Material true (Some (NodeTree [] []))) /\
    (forall k, k <> id -> materials w' !! k = materials w !! k) /\
    outside_materials w' = outside_materials w /\
    new_material id w' = (Ok id, w').
Proof.
  eexists. split; [apply new_material_spec|]. wsimpl.
  split. { by rewrite lookup_insert_eq. }
  split. { intros k Hk. by rewrite lookup_insert_ne. }
  split; [done|].
  rewrite new_material_spec. wsimpl. by rewrite insert_insert_eq.
Qed.

(** ** Base Surface Loader *)

(** The world in which the loader stops when the image has no width. *)
Lemma load_us_map_width_zero D p Ht w :
  files w !! p = Some (Some (0%Z, Ht)) ->
  load_us_map D p w =
  (Raise ZeroDivisionError,
   set_active_object (Some (length (objects w)))
     (link_active (length (objects w))
        (set_objects
           (deselect_all (objects w) ++
            [Some (Object (unique_name (object_names (objects w)) (display_name (path_name p)))
                     MESH (ImagePlane (path_name p)) [display_name (path_name p)] true
                     (1, 1, 1, 1) None (cursor_location w) false)])
           (set_materials
              (<[display_name (path_name p) := Material true (Some image_tree)]> (materials w))
              (set_images (<[path_name p := (0%Z, Ht)]> (images w))
                 (set_mode OBJECT (after_toggle p w))))))).
Proof.
  intros Hf. unfold load_us_map. rewrite load_toggle.
  rewrite Hf. rewrite bool_decide_eq_true_2 by eauto.
  unfold import_image_to_plane. msimpl.
  rewrite addon_toggled. msimpl.
  rewrite Hf. simpl mjoin. msimpl.
  step operator_add_ok. msimpl.
  unfold selected_objects. wsimpl.
  rewrite selected_from_app, selected_from_deselect_all, length_deselect_all. simpl.
  msimpl.
  unfold images_getitem. msimpl. rewrite lookup_insert_eq. msimpl.
  unfold true_div. rewrite decide_True by done. msimpl.
  reflexivity.
Qed.

(** X7.  An image whose width is 0 pixels makes the loader raise
    ZeroDivisionError at the aspect ratio, after the import: the plane is
    already in the scene, selected and active, with the size the host gave it,
    and its dimensions and location have not been set. *)
Theorem load_us_map_zero_width_raises D p Ht w :
  files w !! p = Some (Some (0%Z, Ht)) ->
  exists w' plane,
    load_us_map D p w = (Raise ZeroDivisionError, w') /\
    length (objects w') = S (length (objects w)) /\
    objects w' !! length (objects w) = Some (Some plane) /\
    (data plane, select plane, dimensions plane, location plane)
      = (ImagePlane (path_name p), true, None, cursor_location w) /\
    active_object w' = Some (length (objects w)) /\
    images w' !! path_name p = Some (0%Z, Ht).
Proof.
  intros Hf. eexists _, _. split; [by apply load_us_map_width_zero|].
  wsimpl.
  split. { rewrite length_app, length_deselect_all. simpl. lia. }
  split. { by rewrite lookup_snoc by pos. }
  split; [done|]. split; [done|].
  by rewrite lookup_insert_eq.
Qed.

Lemma load_us_map_zero_width_raises_witness :
  exists w' plane,
    load_us_map 90 "res/png/empty.png"
      startup_with_empty_image
      = (Raise ZeroDivisionError, w') /\
    length (objects w') = S (length (objects startup)) /\
    objects w' !! length (objects startup) = Some (Some plane) /\
    (data plane, select plane, dimensions plane, location plane)
      = (ImagePlane (path_name "res/png/empty.png"), true, None, cursor_location startup) /\
    active_object w' = Some (length (objects startup)) /\
    images w' !! path_name "res/png/empty.png" = Some (0%Z, 0%Z).
Proof.
  apply (load_us_map_zero_width_raises 90 "res/png/empty.png" 0
           startup_with_empty_image).
  reflexivity.
Defined.



(** ** Scene Reset *)

Lemma for_each_remove l w :
  for_each l collections_remove w = (Ok tt, remove_collections l w).
Proof.
  revert w. induction l as [|c l IH]; intros w; [done|].
  simpl for_each. unfold collections_remove at 1. rewrite bind_modify.
  rewrite IH. reflexivity.
Qed.

Lemma remove_collections_keeps {X} (f : world -> X) l w :
  (forall c w, f (collections_remove c w).2 = f w) ->
  f (remove_collections l w) = f w.
Proof.
  intros H. revert w. induction l as [|c l IH]; intros w; [done|].
  change (remove_collections (c :: l) w)
    with (remove_collections l (collections_remove c w).2).
  rewrite IH. apply H.
Qed.

Lemma lookup_remove_collections l w k :
  collections (remove_collections l w) !! k =
  if decide (k ∈ l) then None else collections w !! k.
Proof.
  revert w. induction l as [|c l IH]; intros w.
  - unfold remove_collections. cbn [foldl].
    destruct (decide (k ∈ [])) as [H|]; [by apply elem_of_nil in H|done].
  - change (remove_collections (c :: l) w)
      with (remove_collections l (collections_remove c w).2).
    rewrite IH. unfold collections_remove, modify. wsimpl.
    destruct (decide (k = c)) as [->|Hne].
    + rewrite lookup_delete_eq. rewrite (decide_True (P := c ∈ c :: l)) by (by left).
      by destruct (decide _).
    + rewrite lookup_delete_ne by done.
      destruct (decide (k ∈ l)) as [Hin|Hin].
      * rewrite decide_True by (by right). done.
      * rewrite decide_False; [done|]. intros [?|?]%elem_of_cons; done.
Qed.

Lemma scene_children_remove_collections l w c :
  c ∈ scene_children (remove_collections l w) <-> c ∈ scene_children w /\ c ∉ l.
Proof.
  revert w. induction l as [|d l IH]; intros w.
  - simpl. split; [intros H; split; [done|apply not_elem_of_nil] | by intros [H _]].
  - change (remove_collections (d :: l) w)
      with (remove_collections l (collections_remove d w).2).
    rewrite IH. unfold collections_remove, modify. wsimpl.
    rewrite list_elem_of_filter, not_elem_of_cons. tauto.
Qed.


Lemma init_blender_env_spec w :
  mode w = OBJECT -> init_blender_env w = (Ok tt, after_reset w).
Proof.
  intros Hmode. unfold init_blender_env, select_all, object_delete.
  msimpl. unfold in_object_mode. wsimpl. rewrite Hmode. msimpl.
  rewrite for_each_remove. unfold after_reset. wsimpl. rewrite Hmode. reflexivity.
Qed.

Lemma user_collections_gone (m : gmap string collection) k :
  k ∈ filter (fun n => String.prefix "Scene" n = false) (map_to_list m).*1 <->
  is_Some (m !! k) /\ String.prefix "Scene" k = false.
Proof.
  rewrite list_elem_of_filter, list_elem_of_fmap. split.
  - intros [Hp ([k' c] & -> & Hin)]. apply elem_of_map_to_list in Hin. eauto.
  - intros [[c Hc] Hp]. split; [done|]. exists (k, c). split; [done|].
    by apply elem_of_map_to_list.
Qed.

Lemma in_view_layer_true w h :
  in_view_layer w h = true <->
  h ∈ scene_objects w \/
  exists c coll, c ∈ scene_children w /\ collections w !! c = Some coll /\ h ∈ coll_objects coll.
Proof.
  unfold in_view_layer. rewrite orb_true_iff, bool_decide_eq_true, existsb_exists.
  split; (intros [H|H]; [by left|right]).
  - destruct H as (c & Hc & Hin). apply list_elem_of_In in Hc.
    destruct (collections w !! c) as [coll|] eqn:E; [|done].
    apply bool_decide_eq_true in Hin. eauto.
  - destruct H as (c & coll & Hc & E & Hin). exists c. split; [by apply list_elem_of_In|].
    rewrite E. by apply bool_decide_eq_true.
Qed.

Lemma lookup_select_visible w h :
  objects (select_visible w) !! h =
  (fun o : option object =>
     (fun ob : object => if selectable w h ob then with_select true ob else ob) <$> o)
    <$> objects w !! h.
Proof. exact (list_lookup_imap _ (objects w) h). Qed.

Lemma objects_after_reset w :
  objects (after_reset w) = delete_selected <$> objects (select_visible w).
Proof.
  unfold after_reset. cbv zeta. by rewrite (remove_collections_keeps objects).
Qed.

(** What Scene Reset does to one object. *)
Lemma lookup_after_reset w h o :
  objects w !! h = Some (Some o) ->
  objects (after_reset w) !! h =
  Some (if selectable w h o || select o then None else Some o).
Proof.
  intros Ho. rewrite objects_after_reset, list_lookup_fmap, lookup_select_visible, Ho.
  simpl. destruct (selectable w h o); simpl; [done|].
  by destruct (select o).
Qed.

Lemma lookup_after_reset_inv w h o :
  objects (after_reset w) !! h = Some (Some o) ->
  objects w !! h = Some (Some o) /\ selectable w h o = false /\ select o = false.
Proof.
  intros H. rewrite objects_after_reset, list_lookup_fmap, lookup_select_visible in H.
  destruct (objects w !! h) as [[o0|]|]; simpl in H; try discriminate.
  destruct (selectable w h o0) eqn:Es; simpl in H; [discriminate|].
  destruct (select o0) eqn:E; [discriminate|]. by injection H as <-.
Qed.

(** Scene Reset links nothing: what the view layer shows afterwards it showed before. *)
Lemma in_view_layer_after_reset w h :
  in_view_layer (after_reset w) h = true -> in_view_layer w h = true.
Proof.
  rewrite !in_view_layer_true. unfold after_reset. cbv zeta. intros [H|H].
  - left. rewrite (remove_collections_keeps scene_objects) in H by done.
    wsimpl. by apply list_elem_of_filter in H as [_ H].
  - right. destruct H as (c & coll & Hc & Hcoll & Hin).
    apply scene_children_remove_collections in Hc as [Hc _].
    rewrite lookup_remove_collections in Hcoll.
    destruct (decide _); [discriminate|].
    wsimpl. rewrite lookup_fmap in Hcoll.
    destruct (collections w !! c) as [coll0|] eqn:E; [|discriminate].
    injection Hcoll as <-. simpl in Hin.
    apply list_elem_of_filter in Hin as [_ Hin]. eauto.
Qed.

Lemma reset_state_after_reset w : mode w = OBJECT -> reset_state (after_reset w).
Proof.
  intros Hmode. split_and!.
  - unfold after_reset. cbv zeta. rewrite (remove_collections_keeps mode) by done. exact Hmode.
  - intros h o Ho. apply lookup_after_reset_inv in Ho as (_ & Hs & Hsel).
    split; [done|]. unfold selectable in *.
    destruct (hidden o); [by rewrite andb_false_r|]. rewrite andb_true_r in *.
    destruct (in_view_layer (after_reset w) h) eqn:E; [|done].
    apply in_view_layer_after_reset in E. congruence.
  - intros k. unfold after_reset. cbv zeta. rewrite lookup_remove_collections.
    destruct (decide _) as [Hin|Hout]; [by intros []|].
    intros Hk. destruct (String.prefix "Scene" k) eqn:Hp; [done|].
    exfalso. apply Hout. apply user_collections_gone. done.
Qed.

Lemma select_visible_nothing w :
  (forall h o, objects w !! h = Some (Some o) -> selectable w h o = false) ->
  objects (select_visible w) = objects w.
Proof.
  intros H. apply list_eq. intros h. rewrite lookup_select_visible.
  destruct (objects w !! h) as [[o|]|] eqn:E; [|done|done].
  simpl. by rewrite (H h o E).
Qed.

Lemma delete_nothing l :
  Forall (fun o : option object => forall ob, o = Some ob -> select ob = false) l ->
  delete_selected <$> l = l.
Proof.
  induction 1 as [|o l Ho _ IH]; [done|].
  rewrite fmap_cons, IH. f_equal.
  destruct o as [ob|]; [|done]. simpl. by rewrite (Ho ob eq_refl).
Qed.

Lemma selected_nothing l n :
  Forall (fun o : option object => forall ob, o = Some ob -> select ob = false) l ->
  selected_from n l = [].
Proof.
  intros H. revert n. induction H as [|o l Ho _ IH]; intros n; [done|].
  destruct o as [ob|]; simpl; [|apply IH].
  rewrite (Ho ob eq_refl). apply IH.
Qed.

Lemma filter_not_in_nil (l : list nat) : filter (fun h : nat => h ∉ []) l = l.
Proof.
  induction l as [|h l IH]; [done|].
  rewrite filter_cons_True by apply not_elem_of_nil. by rewrite IH.
Qed.

Lemma init_blender_env_on_reset_state w :
  reset_state w ->
  init_blender_env w = (Ok tt, set_trace (trace w ++ [Call SceneReset]) w).
Proof.
  intros (Hmode & Hobjs & Hcolls).
  rewrite init_blender_env_spec by done.
  assert (Hnone : Forall (fun o : option object => forall ob, o = Some ob -> select ob = false)
                    (objects w)).
  { apply Forall_lookup_2. intros h o Ho ob ->. by apply (Hobjs h ob). }
  unfold after_reset. cbv zeta.
  rewrite select_visible_nothing by (intros h o Ho; by apply (Hobjs h o)).
  rewrite (selected_nothing _ 0 Hnone), (delete_nothing _ Hnone).
  assert (Hc : (fun c : collection => Collection (filter (fun h : nat => h ∉ []) (coll_objects c)))
                 <$> collections w = collections w).
  { apply map_eq. intros k. rewrite lookup_fmap.
    destruct (collections w !! k) as [c|]; [|done]. simpl.
    by rewrite filter_not_in_nil. }
  rewrite Hc, filter_not_in_nil.
  assert (Ha : active_object w ≫= (fun h => if decide (h ∈ []) then None else Some h)
               = active_object w).
  { destruct (active_object w) as [h|]; [|done]. cbn [mbind option_bind].
    destruct (decide (h ∈ [])) as [Hin|]; [by apply elem_of_nil in Hin|done]. }
  rewrite Ha.
  match goal with |- context [ remove_collections ?l _ ] =>
    assert (Hl : l = [])
  end.
  { apply elem_of_nil_inv. intros k Hk.
    apply user_collections_gone in Hk as [Hk Hp].
    wsimpl. apply Hcolls in Hk. congruence. }
  rewrite Hl. reflexivity.
Qed.

(** X9.  Run in object mode, Scene Reset returns and deletes every object
    the view layer offers for selection (linked into the scene and not
    hidden), and every selected one; an object that is hidden or linked
    nowhere in the scene, and not selected, stays as it is.  Nothing is
    selected afterwards, no slot of [bpy.data.objects] is reused, and no
    object the scene still shows is left.  Of the collections exactly those
    whose name starts with "Scene" remain (a user's "Scenery" would stay, any
    other name goes); materials, curves and images are not cleared. *)
Theorem init_blender_env_empties_the_scene w :
  mode w = OBJECT ->
  exists w',
    init_blender_env w = (Ok tt, w') /\
    length (objects w') = length (objects w) /\
    (forall h o, objects w !! h = Some (Some o) ->
       objects w' !! h =
       Some (if selectable w h o || select o then None else Some o)) /\
    (forall h o, objects w' !! h = Some (Some o) -> selectable w' h o = false) /\
    selected_objects w' = [] /\
    (forall k, is_Some (collections w' !! k) <->
               is_Some (collections w !! k) /\ String.prefix "Scene" k = true) /\
    (materials w', curves w', images w') = (materials w, curves w, images w).
Proof.
  intros Hmode. exists (after_reset w).
  split; [by apply init_blender_env_spec|].
  pose proof (reset_state_after_reset w Hmode) as (_ & Hnone & Hpre).
  split.
  { rewrite objects_after_reset. unfold select_visible. wsimpl.
    by rewrite length_fmap, length_imap. }
  split; [by apply lookup_after_reset|].
  split. { intros h o Ho. by apply (Hnone h o). }
  split.
  { pose proof (init_blender_env_leaves_nothing_selected w Hmode) as Hs.
    by rewrite init_blender_env_spec in Hs. }
  split.
  { intros k. split.
    - intros Hk. split; [|by apply Hpre].
      unfold after_reset in Hk. cbv zeta in Hk.
      rewrite lookup_remove_collections in Hk.
      destruct (decide _); [by destruct Hk|].
      wsimpl. rewrite lookup_fmap in Hk. by apply fmap_is_Some in Hk.
    - intros [Hk Hp]. unfold after_reset. cbv zeta.
      rewrite lookup_remove_collections.
      destruct (decide _) as [Hin|Hout].
      + apply user_collections_gone in Hin as [_ Hin]. congruence.
      + wsimpl. rewrite lookup_fmap. by apply fmap_is_Some. }
  unfold after_reset. cbv zeta.
  rewrite (remove_collections_keeps (fun w => (materials w, curves w, images w))) by done.
  done.
Qed.

Lemma init_blender_env_empties_the_scene_witness :
  exists w',
    init_blender_env startup_with_hidden_light = (Ok tt, w') /\
    length (objects w') = length (objects startup_with_hidden_light) /\
    (forall h o, objects startup_with_hidden_light !! h = Some (Some o) ->
       objects w' !! h =
       Some (if selectable startup_with_hidden_light h o || select o then None else Some o)) /\
    (forall h o, objects w' !! h = Some (Some o) -> selectable w' h o = false) /\
    selected_objects w' = [] /\
    (forall k, is_Some (collections w' !! k) <->
               is_Some (collections startup_with_hidden_light !! k) /\
               String.prefix "Scene" k = true) /\
    (materials w', curves w', images w')
      = (materials startup_with_hidden_light, curves startup_with_hidden_light,
         images startup_with_hidden_light).
Proof.
  apply init_blender_env_empties_the_scene. reflexivity.
Defined.

(** On the factory scene with the light hidden, the cube and the camera go
    and the light stays. *)
Example init_blender_env_keeps_the_hidden_light :
  exists light,
    objects (init_blender_env startup_with_hidden_light).2 = [None; Some light; None] /\
    (name light, hidden light) = ("Light", true).
Proof. eexists. split; [by vm_compute|done]. Qed.

(** X10.  Scene Reset is idempotent: run again on the scene it left, it
    returns and the scene is exactly what the first run left. *)
Theorem init_blender_env_twice w :
  mode w = OBJECT ->
  exists w1 w2,
    init_blender_env w = (Ok tt, w1) /\
    init_blender_env w1 = (Ok tt, w2) /\
    scene w2 = scene w1.
Proof.
  intros Hmode.
  exists (after_reset w), (set_trace (trace (after_reset w) ++ [Call SceneReset]) (after_reset w)).
  split; [by apply init_blender_env_spec|].
  split; [|done].
  apply init_blender_env_on_reset_state. by apply reset_state_after_reset.
Qed.

Lemma init_blender_env_twice_witness :
  exists w1 w2,
    init_blender_env startup = (Ok tt, w1) /\
    init_blender_env w1 = (Ok tt, w2) /\
    scene w2 = scene w1.
Proof.
  apply init_blender_env_twice. reflexivity.
Defined.

(** ** Label Geometry Builder *)

Lemma new_text_spec baseid text w :
  new_text baseid text w =
  (if decide (length (objects w) ∈ scene_objects w) then Raise RuntimeError
   else Ok (length (objects w)),
   after_new_text baseid text w).
Proof.
  unfold new_text, curves_new, set_body, objects_new, add_object, scene_objects_link.
  msimpl. rewrite insert_insert_eq.
  unfold after_new_text, text_object.
  destruct (decide (length (objects w) ∈ scene_objects w)); msimpl; reflexivity.
Qed.

(** X11.  [new_text] adds its object without selecting it or making it
    active: whether it returns or raises, the active object, the selection and
    the mode are what they were, and every object that was there is unchanged. *)
Theorem new_text_keeps_selection_and_active baseid text w :
  let w' := (new_text baseid text w).2 in
  active_object w' = active_object w /\
  selected_objects w' = selected_objects w /\
  mode w' = mode w /\
  (forall i, (i < length (objects w))%nat -> objects w' !! i = objects w !! i).
Proof.
  cbv zeta. rewrite new_text_spec. unfold after_new_text, selected_objects. wsimpl.
  split; [done|]. split; [|split; [done|]].
  - rewrite selected_from_app. simpl. by rewrite app_nil_r.
  - intros i Hi. by rewrite lookup_app_l.
Qed.

(** X12.  When the new reference is not yet in the scene's root collection,
    [new_text] returns it: one FONT object appended to [bpy.data.objects],
    unselected, linked to the root collection, backed by a new curve whose
    body is the text; its name is [baseid + "_font"] when that name is free. *)
Theorem new_text_makes_a_font_object baseid text w :
  length (objects w) ∉ scene_objects w ->
  exists w' o curve,
    new_text baseid text w = (Ok (length (objects w)), w') /\
    objects w' = objects w ++ [Some o] /\
    (type o, data o, select o, data_materials o) = (FONT, TextCurve curve, false, []) /\
    curves w !! curve = None /\
    curves w' = <[curve := text]> (curves w) /\
    scene_objects w' = scene_objects w ++ [length (objects w)] /\
    (name o ∉ object_names (objects w)) /\
    ((baseid +:+ "_font") ∉ object_names (objects w) -> name o = baseid +:+ "_font").
Proof.
  intros Hn.
  exists (after_new_text baseid text w), (text_object baseid w),
         (unique_name (elements (dom (curves w))) (baseid +:+ "_curve")).
  split. { rewrite new_text_spec. by rewrite decide_False. }
  unfold after_new_text, text_object. wsimpl.
  split; [done|]. split; [done|].
  split.
  { apply (not_elem_of_dom (D:=gset string)). rewrite <- elem_of_elements.
    apply unique_name_fresh. }
  split; [done|].
  split. { by rewrite decide_False. }
  split. { apply unique_name_fresh. }
  intros Hfree. by apply unique_name_free.
Qed.

Lemma new_text_makes_a_font_object_witness :
  exists w' o curve,
    new_text "Text_14.0_-1.0_0.0" "AL" startup = (Ok (length (objects startup)), w') /\
    objects w' = objects startup ++ [Some o] /\
    (type o, data o, select o, data_materials o) = (FONT, TextCurve curve, false, []) /\
    curves startup !! curve = None /\
    curves w' = <[curve := "AL"]> (curves startup) /\
    scene_objects w' = scene_objects startup ++ [length (objects startup)] /\
    (name o ∉ object_names (objects startup)) /\
    (("Text_14.0_-1.0_0.0" +:+ "_font") ∉ object_names (objects startup) ->
     name o = "Text_14.0_-1.0_0.0" +:+ "_font").
Proof.
  apply new_text_makes_a_font_object.
  simpl. apply not_elem_of_nil.
Defined.

(** ** Marker Composer *)

Lemma objects_composed fmt x y z mat label texmat w :
  objects (composed fmt x y z mat label texmat w) =
  deselect_all (objects w) ++
  [Some (marker_object fmt x y z mat w); Some (label_object fmt x y z label texmat w)].
Proof. reflexivity. Qed.

(** X13.  The label's placement does not depend on its text nor on the
    marker's height: from a well-formed host state the label object always
    ends at [(x - 0.25, y - 0.25, 0.3)] with dimensions [(0.5, 0.5, 0.3)],
    coloured opaque black and carrying [texmat] as its only material. *)
Theorem draw_object_places_the_label fmt x y z mat label texmat w :
  wf w ->
  exists w' text,
    draw_object fmt x y z mat label texmat w = (Ok tt, w') /\
    objects w' !! S (length (objects w)) = Some (Some text) /\
    location text = (x - 0.25, y - 0.25, 0.3) /\
    dimensions text = Some (0.5, 0.5, 0.3) /\
    color text = (0, 0, 0, 1) /\
    data_materials text = [texmat] /\
    select text = false.
Proof.
  intros Hwf.
  exists (composed fmt x y z mat label texmat w), (label_object fmt x y z label texmat w).
  split; [by apply draw_object_spec|].
  rewrite objects_composed. split; [|done].
  apply lookup_pair_1. by rewrite length_deselect_all.
Qed.

Lemma draw_object_places_the_label_witness :
  exists w' text,
    draw_object decimal 14.0 (-1.0) 0.0 led_shader "AL" text_shader startup = (Ok tt, w') /\
    objects w' !! S (length (objects startup)) = Some (Some text) /\
    location text = (14.0 - 0.25, -1.0 - 0.25, 0.3) /\
    dimensions text = Some (0.5, 0.5, 0.3) /\
    color text = (0, 0, 0, 1) /\
    data_materials text = [text_shader] /\
    select text = false.
Proof.
  apply draw_object_places_the_label. exact wf_startup.
Defined.

(** X14.  What a composition leaves alone: materials, images, add-ons, files
    and the output are untouched; the objects that were there keep their place
    and everything but their selection, which is cleared; the mode is object
    mode again and the active object is the new marker; one curve, holding the
    label's text, is added and none removed. *)
Theorem draw_object_frame fmt x y z mat label texmat w :
  wf w ->
  exists w' curve,
    draw_object fmt x y z mat label texmat w = (Ok tt, w') /\
    (materials w', images w', addons w', files w', stdout w')
      = (materials w, images w, addons w, files w, stdout w) /\
    (forall i, (i < length (objects w))%nat ->
       objects w' !! i = (fun o : option object => with_select false <$> o) <$> objects w !! i) /\
    mode w' = OBJECT /\
    active_object w' = Some (length (objects w)) /\
    curves w !! curve = None /\
    curves w' = <[curve := label]> (curves w).
Proof.
  intros Hwf. exists (composed fmt x y z mat label texmat w), (curve_name fmt x y z w).
  split; [by apply draw_object_spec|]. split; [done|].
  split.
  { intros i Hi. rewrite objects_composed.
    rewrite lookup_app_l by (by rewrite length_deselect_all).
    unfold deselect_all. by rewrite list_lookup_fmap. }
  split; [done|]. split; [done|]. split; [|done].
  apply (not_elem_of_dom (D:=gset string)). rewrite <- elem_of_elements.
  apply unique_name_fresh.
Qed.

Lemma draw_object_frame_witness :
  exists w' curve,
    draw_object decimal 14.0 (-1.0) 0.0 led_shader "AL" text_shader startup = (Ok tt, w') /\
    (materials w', images w', addons w', files w', stdout w')
      = (materials startup, images startup, addons startup, files startup, stdout startup) /\
    (forall i, (i < length (objects startup))%nat ->
       objects w' !! i =
       (fun o : option object => with_select false <$> o) <$> objects startup !! i) /\
    mode w' = OBJECT /\
    active_object w' = Some (length (objects startup)) /\
    curves startup !! curve = None /\
    curves w' = <[curve := "AL"]> (curves startup).
Proof.
  apply draw_object_frame. exact wf_startup.
Defined.

(** X15.  Object names stay pairwise distinct: if they are before a
    composition they are after it, and the two new names are the requested
    ["LED_x_y_z"] and ["Text_x_y_z_font"] whenever those are free. *)
Theorem draw_object_keeps_names_distinct fmt x y z mat label texmat w :
  wf w -> NoDup (object_names (objects w)) ->
  exists w' marker text,
    draw_object fmt x y z mat label texmat w = (Ok tt, w') /\
    NoDup (object_names (objects w')) /\
    object_names (objects w') = object_names (objects w) ++ [marker; text] /\
    ((format3 fmt "LED_" x y z) ∉ object_names (objects w) ->
       marker = format3 fmt "LED_" x y z) /\
    ((format3 fmt "Text_" x y z +:+ "_font") ∉ (object_names (objects w) ++ [marker]) ->
       text = format3 fmt "Text_" x y z +:+ "_font").
Proof.
  intros Hwf Hnd.
  exists (composed fmt x y z mat label texmat w),
         (marker_name fmt x y z w), (label_name fmt x y z w).
  split; [by apply draw_object_spec|].
  assert (Hnames : object_names (objects (composed fmt x y z mat label texmat w)) =
                   object_names (objects w) ++ [marker_name fmt x y z w; label_name fmt x y z w]).
  { rewrite objects_composed, object_names_app, object_names_deselect_all. done. }
  split.
  { rewrite Hnames.
    change [marker_name fmt x y z w; label_name fmt x y z w]
      with ([marker_name fmt x y z w] ++ [label_name fmt x y z w]).
    rewrite app_assoc. apply NoDup_app. split_and!.
    - apply NoDup_app. split_and!; [done| |apply NoDup_singleton].
      intros n Hn Hm. apply list_elem_of_singleton in Hm. subst n.
      by apply unique_name_fresh in Hn.
    - intros n Hn Hm. apply list_elem_of_singleton in Hm. subst n.
      by apply unique_name_fresh in Hn.
    - apply NoDup_singleton. }
  split; [exact Hnames|].
  split; intros Hfree; by apply unique_name_free.
Qed.

Lemma draw_object_keeps_names_distinct_witness :
  exists w' marker text,
    draw_object decimal 14.0 (-1.0) 0.0 led_shader "AL" text_shader startup = (Ok tt, w') /\
    NoDup (object_names (objects w')) /\
    object_names (objects w') = object_names (objects startup) ++ [marker; text] /\
    ((format3 decimal "LED_" 14.0 (-1.0) 0.0) ∉ object_names (objects startup) ->
       marker = format3 decimal "LED_" 14.0 (-1.0) 0.0) /\
    ((format3 decimal "Text_" 14.0 (-1.0) 0.0 +:+ "_font")
       ∉ (object_names (objects startup) ++ [marker]) ->
       text = format3 decimal "Text_" 14.0 (-1.0) 0.0 +:+ "_font").
Proof.
  apply draw_object_keeps_names_distinct.
  - exact wf_startup.
  - vm_compute. repeat constructor; rewrite ?list_elem_of_In; simpl; intuition discriminate.
Defined.

(** X16.  A label whose group name is taken does not overwrite the
    collection that has it: the new group gets another, unused name and holds
    the two new objects, while the collection called [label + "_led"] keeps
    its objects (and gains the marker only if it is the active collection). *)
Theorem draw_object_renames_a_colliding_group fmt x y z mat label texmat w c :
  wf w -> collections w !! (label +:+ "_led") = Some c ->
  exists w' group c',
    draw_object fmt x y z mat label texmat w = (Ok tt, w') /\
    group <> label +:+ "_led" /\
    collections w !! group = None /\
    collections w' !! group = Some (Collection [length (objects w); S (length (objects w))]) /\
    collections w' !! (label +:+ "_led") = Some c' /\
    (coll_objects c' = coll_objects c \/
     (target_collection w = Some (label +:+ "_led") /\
      coll_objects c' = coll_objects c ++ [length (objects w)])).
Proof.
  intros Hwf Hc.
  pose proof (group_name_is_new label w) as Hnew.
  assert (Hne : group_name label w <> label +:+ "_led").
  { intros E. rewrite E in Hnew. by rewrite Hnew in Hc. }
  pose proof (link_active_target (length (objects w)) w) as Ht.
  destruct (target_collection w) as [a|] eqn:Ea.
  - destruct Ht as (coll & Ha & HCS & _).
    destruct (decide (a = label +:+ "_led")) as [->|Hna].
    + exists (composed fmt x y z mat label texmat w), (group_name label w),
             (Collection (coll_objects coll ++ [length (objects w)])).
      split; [by apply draw_object_spec|]. split; [done|]. split; [done|].
      rewrite collections_composed, HCS.
      split. { by rewrite lookup_insert_eq. }
      split. { rewrite lookup_insert_ne by done. by rewrite lookup_insert_eq. }
      right. split; [done|]. rewrite Hc in Ha. by injection Ha as ->.
    + exists (composed fmt x y z mat label texmat w), (group_name label w), c.
      split; [by apply draw_object_spec|]. split; [done|]. split; [done|].
      rewrite collections_composed, HCS.
      split. { by rewrite lookup_insert_eq. }
      split. { rewrite lookup_insert_ne by done. by rewrite lookup_insert_ne. }
      by left.
  - destruct Ht as [HCS _].
    exists (composed fmt x y z mat label texmat w), (group_name label w), c.
    split; [by apply draw_object_spec|]. split; [done|]. split; [done|].
    rewrite collections_composed, HCS.
    split. { by rewrite lookup_insert_eq. }
    split. { by rewrite lookup_insert_ne. }
    by left.
Qed.

Lemma draw_object_renames_a_colliding_group_witness :
  exists w' group c',
    draw_object decimal 14.0 (-1.0) 0.0 led_shader "AL" text_shader
      after_first_marker = (Ok tt, w') /\
    group <> "AL" +:+ "_led" /\
    collections after_first_marker
      !! group = None /\
    collections w' !! group =
      Some (Collection
        [length (objects after_first_marker);
         S (length (objects after_first_marker))]) /\
    collections w' !! ("AL" +:+ "_led") = Some c' /\
    (coll_objects c' = coll_objects (Collection [3; 4]%nat) \/
     (target_collection after_first_marker
        = Some ("AL" +:+ "_led") /\
      coll_objects c' = coll_objects (Collection [3; 4]%nat) ++
        [length (objects after_first_marker)])).
Proof.
  apply (draw_object_renames_a_colliding_group decimal 14.0 (-1.0) 0.0 led_shader "AL" text_shader
           after_first_marker
           (Collection [3; 4]%nat)).
  - unfold after_first_marker. rewrite draw_object_spec by exact wf_startup.
    apply wf_composed. exact wf_startup.
  - by vm_compute.
Defined.

(** ** Run Driver *)

Lemma entry_world_unfold fmt state x y z w :
  entry_world fmt (state, (x, y, z)) w =
  composed fmt x y z led_shader state text_shader
    (with_graph text_shader (diffuse_tree 0 0 0)
       (with_graph led_shader
          (emission_tree (float_of_Z 255) (float_of_Z 255) (float_of_Z 255) 1) w)).
Proof. reflexivity. Qed.

Lemma loop_world_cons fmt e entries w :
  loop_world fmt (e :: entries) w = loop_world fmt entries (entry_world fmt e w).
Proof. reflexivity. Qed.

Lemma with_shaders_twice m : with_shaders (with_shaders m) = with_shaders m.
Proof.
  unfold with_shaders. apply map_eq. intros k.
  rewrite !lookup_insert. repeat case_decide; done.
Qed.

Lemma materials_entry_world fmt e w :
  materials (entry_world fmt e w) = with_shaders (materials w).
Proof. by destruct e as [state [[x y] z]]. Qed.

Lemma materials_loop_world fmt entries w :
  entries <> [] -> materials (loop_world fmt entries w) = with_shaders (materials w).
Proof.
  revert w. induction entries as [|e entries IH]; intros w Hne; [done|].
  rewrite loop_world_cons. destruct entries as [|e' entries'].
  - apply materials_entry_world.
  - rewrite IH by done. rewrite materials_entry_world. apply with_shaders_twice.
Qed.

(** X17.  However many entries the dataset has (at least one), the loop
    leaves exactly two materials of its own, shared by all markers and labels:
    the white emissive "LEDShader_255_255_255" of strength 1 and the black
    diffuse "TextShader_0_0_0"; every other material is untouched. *)
Theorem loop_shares_two_materials fmt entries w :
  wf w -> entries <> [] ->
  exists w',
    for_each entries (compose_entry fmt) w = (Ok tt, w') /\
    materials w' !! "LEDShader_255_255_255" =
      Some (Material true (Some (emission_tree (float_of_Z 255) (float_of_Z 255) (float_of_Z 255) 1))) /\
    materials w' !! "TextShader_0_0_0" = Some (Material true (Some (diffuse_tree 0 0 0))) /\
    (forall k, k <> "LEDShader_255_255_255" -> k <> "TextShader_0_0_0" ->
       materials w' !! k = materials w !! k).
Proof.
  intros Hwf Hne. eexists. split; [by apply for_each_compose|].
  rewrite materials_loop_world by done. unfold with_shaders, led_shader, text_shader.
  split. { rewrite lookup_insert_ne by done. by rewrite lookup_insert_eq. }
  split. { by rewrite lookup_insert_eq. }
  intros k H1 H2. by rewrite !lookup_insert_ne.
Qed.

Lemma loop_shares_two_materials_witness :
  exists w',
    for_each [("AL", (14.0, -1.0, 0.0)); ("AK", (-3.0, -25.0, 0.0))]
      (compose_entry decimal) startup = (Ok tt, w') /\
    materials w' !! "LEDShader_255_255_255" =
      Some (Material true (Some (emission_tree (float_of_Z 255) (float_of_Z 255) (float_of_Z 255) 1))) /\
    materials w' !! "TextShader_0_0_0" = Some (Material true (Some (diffuse_tree 0 0 0))) /\
    (forall k, k <> "LEDShader_255_255_255" -> k <> "TextShader_0_0_0" ->
       materials w' !! k = materials startup !! k).
Proof.
  apply loop_shares_two_materials.
  - exact wf_startup.
  - discriminate.
Defined.

(** X18.  Whatever happens in it, the driver's loop never prints, never
    touches the add-ons, the files or the loaded images; and a composition
    never changes a material. *)
Theorem loop_never_prints fmt entries x y z mat label texmat :
  keeps (fun w => (stdout w, addons w, files w, images w))
    (for_each entries (compose_entry fmt)) /\
  keeps materials (draw_object fmt x y z mat label texmat).
Proof.
  split.
  - apply keeps_for_each. intros [state [[x' y'] z']].
    autounfold with script. keeps_tac.
  - autounfold with script. keeps_tac.
Qed.

Lemma active_collection_entry_world fmt e w :
  active_collection (entry_world fmt e w) = active_collection w.
Proof. by destruct e as [state [[x y] z]]. Qed.

Lemma collections_entry_world fmt state pos w :
  collections (entry_world fmt (state, pos) w) =
  <[group_name state w := Collection [length (objects w); S (length (objects w))]]>
    (collections (link_active (length (objects w)) w)).
Proof. by destruct pos as [[x y] z]. Qed.

Lemma objects_entry_world fmt state x y z w :
  objects (entry_world fmt (state, (x, y, z)) w) =
  deselect_all (objects w) ++
  [Some (marker_object fmt x y z led_shader w);
   Some (label_object fmt x y z state text_shader w)].
Proof. reflexivity. Qed.

Lemma length_objects_entry_world fmt e w :
  length (objects (entry_world fmt e w)) = S (S (length (objects w))).
Proof.
  destruct e as [state [[x y] z]]. rewrite objects_entry_world.
  rewrite length_app, length_deselect_all. simpl. lia.
Qed.


Lemma active_exists w c :
  target_collection w = active_collection w -> active_collection w = Some c ->
  is_Some (collections w !! c).
Proof.
  unfold target_collection. intros H E.
  destruct (active_collection w) as [c'|]; [|done].
  injection E as ->. simpl in H.
  destruct (collections w !! c); [eauto|done].
Qed.

Lemma target_exists w :
  (forall c, active_collection w = Some c -> is_Some (collections w !! c)) ->
  target_collection w = active_collection w.
Proof.
  unfold target_collection. intros H.
  destruct (active_collection w) as [c|]; [|done].
  destruct (H c eq_refl) as [coll Hc]. simpl. by rewrite Hc.
Qed.

Section Turn.
Variables (fmt : float -> string) (state : string) (pos : vec3) (w : world).
Hypothesis Hact : target_collection w = active_collection w.
Hypothesis Hfree : collections w !! (state +:+ "_led") = None.

Lemma entry_world_new_group :
  collections (entry_world fmt (state, pos) w) !! (state +:+ "_led") =
  Some (Collection [length (objects w); S (length (objects w))]).
Proof.
  rewrite collections_entry_world, group_name_free by done.
  by rewrite lookup_insert_eq.
Qed.

Lemma entry_world_old_group k :
  k <> state +:+ "_led" -> active_collection w <> Some k ->
  collections (entry_world fmt (state, pos) w) !! k = collections w !! k.
Proof.
  intros Hk Ha.
  rewrite collections_entry_world, group_name_free by done.
  rewrite lookup_insert_ne by done.
  pose proof (link_active_target (length (objects w)) w) as Ht.
  rewrite Hact in Ht.
  destruct (active_collection w) as [c|].
  - destruct Ht as (coll & _ & -> & _). rewrite lookup_insert_ne; [done|congruence].
  - by destruct Ht as [-> _].
Qed.

Lemma entry_world_grows k :
  is_Some (collections w !! k) ->
  is_Some (collections (entry_world fmt (state, pos) w) !! k).
Proof.
  intros Hk. rewrite collections_entry_world.
  destruct (decide (group_name state w = k)) as [E|Hne].
  - rewrite E, lookup_insert_eq. eauto.
  - rewrite lookup_insert_ne by done. by apply link_active_grows.
Qed.

Lemma entry_world_active :
  target_collection (entry_world fmt (state, pos) w) =
  active_collection (entry_world fmt (state, pos) w).
Proof.
  apply target_exists. intros c Hc.
  rewrite active_collection_entry_world in Hc.
  apply entry_world_grows. by apply active_exists.
Qed.

Lemma active_is_not_new : active_collection w <> Some (state +:+ "_led").
Proof.
  intros E. destruct (active_exists _ _ Hact E) as [coll Hc].
  by rewrite Hfree in Hc.
Qed.
End Turn.

Lemma unselected_twice o : unselected (unselected o) = unselected o.
Proof. by destruct o as [[o|]|]. Qed.

Lemma entry_world_old_object fmt e w h :
  (h < length (objects w))%nat ->
  objects (entry_world fmt e w) !! h = unselected (objects w !! h).
Proof.
  intros Hh. destruct e as [state [[x y] z]]. rewrite objects_entry_world.
  rewrite lookup_app_l by (by rewrite length_deselect_all).
  unfold deselect_all. by rewrite list_lookup_fmap.
Qed.

Lemma loop_world_old_object fmt entries w h :
  (h < length (objects w))%nat ->
  unselected (objects (loop_world fmt entries w) !! h) = unselected (objects w !! h).
Proof.
  revert w. induction entries as [|e entries IH]; intros w Hh; [done|].
  rewrite loop_world_cons, IH by (rewrite length_objects_entry_world; lia).
  rewrite entry_world_old_object by done. apply unselected_twice.
Qed.

Lemma loop_world_old_group fmt entries w k :
  target_collection w = active_collection w ->
  NoDup (group_names entries) ->
  Forall (fun g => collections w !! g = None) (group_names entries) ->
  k ∉ group_names entries -> active_collection w <> Some k ->
  collections (loop_world fmt entries w) !! k = collections w !! k.
Proof.
  revert w. induction entries as [|[state pos] entries IH]; intros w Hact Hnd Hfree Hk Ha; [done|].
  rewrite loop_world_cons.
  change (group_names ((state, pos) :: entries))
    with ((state +:+ "_led") :: group_names entries) in *.
  apply NoDup_cons in Hnd as [Hnew Hnd].
  apply Forall_cons in Hfree as [Hfree0 Hfree].
  apply not_elem_of_cons in Hk as [Hk0 Hk].
  rewrite IH.
  - by apply entry_world_old_group.
  - by apply entry_world_active.
  - done.
  - apply Forall_forall. intros g Hg.
    rewrite entry_world_old_group; try done.
    + by apply (proj1 (Forall_forall _ _) Hfree).
    + intros ->. done.
    + intros E. destruct (active_exists _ _ Hact E) as [coll Hc].
      by rewrite (proj1 (Forall_forall _ _) Hfree g Hg) in Hc.
  - done.
  - by rewrite active_collection_entry_world.
Qed.

Lemma loop_world_groups fmt entries w i state pos :
  target_collection w = active_collection w ->
  NoDup (group_names entries) ->
  Forall (fun g => collections w !! g = None) (group_names entries) ->
  entries !! i = Some (state, pos) ->
  collections (loop_world fmt entries w) !! (state +:+ "_led") =
  Some (Collection [(length (objects w) + 2 * i)%nat; S (length (objects w) + 2 * i)]).
Proof.
  revert w i. induction entries as [|[state0 pos0] entries IH]; intros w i Hact Hnd Hfree Hi; [done|].
  rewrite loop_world_cons.
  change (group_names ((state0, pos0) :: entries))
    with ((state0 +:+ "_led") :: group_names entries) in *.
  apply NoDup_cons in Hnd as [Hnew Hnd].
  apply Forall_cons in Hfree as [Hfree0 Hfree].
  assert (Hfree' : Forall (fun g => collections (entry_world fmt (state0, pos0) w) !! g = None)
                     (group_names entries)).
  { apply Forall_forall. intros g Hg.
    rewrite entry_world_old_group; try done.
    + by apply (proj1 (Forall_forall _ _) Hfree).
    + intros ->. done.
    + intros E. destruct (active_exists _ _ Hact E) as [coll Hc].
      by rewrite (proj1 (Forall_forall _ _) Hfree g Hg) in Hc. }
  destruct i as [|i].
  - injection Hi as -> ->.
    rewrite loop_world_old_group; try done.
    + rewrite entry_world_new_group by done.
      by replace (length (objects w) + 2 * 0)%nat with (length (objects w)) by lia.
    + by apply entry_world_active.
    + rewrite active_collection_entry_world. by apply active_is_not_new.
  - simpl in Hi. rewrite (IH _ i) by (try done; by apply entry_world_active).
    rewrite length_objects_entry_world.
    by replace (S (S (length (objects w))) + 2 * i)%nat
      with (length (objects w) + 2 * S i)%nat by lia.
Qed.

Lemma loop_world_objects fmt entries w i state x y z :
  entries !! i = Some (state, (x, y, z)) ->
  exists wi,
    unselected (objects (loop_world fmt entries w) !! (length (objects w) + 2 * i)%nat) =
      Some (Some (marker_object fmt x y z led_shader wi)) /\
    unselected (objects (loop_world fmt entries w) !! S (length (objects w) + 2 * i)) =
      Some (Some (label_object fmt x y z state text_shader wi)).
Proof.
  revert w i. induction entries as [|e entries IH]; intros w i Hi; [done|].
  rewrite loop_world_cons. destruct i as [|i].
  - injection Hi as ->. exists w.
    replace (length (objects w) + 2 * 0)%nat with (length (objects w)) by lia.
    rewrite !loop_world_old_object by (rewrite length_objects_entry_world; lia).
    rewrite objects_entry_world.
    rewrite lookup_pair_0 by (by rewrite length_deselect_all).
    rewrite lookup_pair_1 by (by rewrite length_deselect_all).
    done.
  - simpl in Hi. destruct (IH (entry_world fmt e w) i Hi) as (wi & H0 & H1).
    exists wi. rewrite length_objects_entry_world in H0, H1.
    by replace (length (objects w) + 2 * S i)%nat
      with (S (S (length (objects w))) + 2 * i)%nat by lia.
Qed.

(** X19.  The loop gives every entry a group of its own.  From a well-formed
    host state whose active collection (if any) exists, for a dataset whose
    group names [state + "_led"] are pairwise distinct and all unused, the
    loop returns, and the [i]-th entry [(state, (x, y, z))] ends with a
    collection called [state + "_led"] holding exactly the two objects created
    in its turn, in this order: the marker, an extruded cylinder at
    [(x, y, z)] carrying the LED material, and the extruded text of [state]
    carrying the text material.  Later turns neither add to an earlier group
    nor change these objects. *)
Theorem loop_groups_every_entry fmt entries w i state x y z :
  wf w ->
  target_collection w = active_collection w ->
  NoDup (group_names entries) ->
  Forall (fun g => collections w !! g = None) (group_names entries) ->
  entries !! i = Some (state, (x, y, z)) ->
  exists w' marker text,
    for_each entries (compose_entry fmt) w = (Ok tt, w') /\
    collections w' !! (state +:+ "_led") =
      Some (Collection [(length (objects w) + 2 * i)%nat; S (length (objects w) + 2 * i)]) /\
    objects w' !! (length (objects w) + 2 * i)%nat = Some (Some marker) /\
    objects w' !! S (length (objects w) + 2 * i) = Some (Some text) /\
    (type marker, data marker, data_materials marker, location marker)
      = (MESH, Extruded (Cylinder 0.5 0.5) (0, 0, 0.3), [led_shader], (x, y, z)) /\
    (type text, data text, data_materials text)
      = (MESH, Extruded (Glyphs state) (0, 0, 0.3), [text_shader]).
Proof.
  intros Hwf Hact Hnd Hfree Hi.
  destruct (loop_world_objects fmt entries w i state x y z Hi) as (wi & Hm & Ht).
  destruct (objects (loop_world fmt entries w) !! (length (objects w) + 2 * i)%nat)
    as [[marker|]|] eqn:Em; try discriminate Hm.
  destruct (objects (loop_world fmt entries w) !! S (length (objects w) + 2 * i))
    as [[text|]|] eqn:Et; try discriminate Ht.
  exists (loop_world fmt entries w), marker, text.
  split; [by apply for_each_compose|].
  split; [by apply (loop_world_groups fmt entries w i state (x, y, z))|].
  split; [done|]. split; [done|].
  split.
  - injection Hm as _ -> -> -> _ _ ->. reflexivity.
  - injection Ht as _ -> -> -> _ _ _. reflexivity.
Qed.

Lemma loop_groups_every_entry_witness :
  exists w' marker text,
    for_each [("AL", (14.0, -1.0, 0.0)); ("AK", (-3.0, -25.0, 0.0))]
      (compose_entry decimal) startup = (Ok tt, w') /\
    collections w' !! ("AK" +:+ "_led") =
      Some (Collection [(length (objects startup) + 2 * 1)%nat;
                        S (length (objects startup) + 2 * 1)]) /\
    objects w' !! (length (objects startup) + 2 * 1)%nat = Some (Some marker) /\
    objects w' !! S (length (objects startup) + 2 * 1) = Some (Some text) /\
    (type marker, data marker, data_materials marker, location marker)
      = (MESH, Extruded (Cylinder 0.5 0.5) (0, 0, 0.3), [led_shader], (-3.0, -25.0, 0.0)) /\
    (type text, data text, data_materials text)
      = (MESH, Extruded (Glyphs "AK") (0, 0, 0.3), [text_shader]).
Proof.
  apply loop_groups_every_entry.
  - exact wf_startup.
  - reflexivity.
  - apply (bool_decide_unpack _). by vm_compute.
  - repeat constructor.
  - reflexivity.
Defined.





